(** * Gnuastro library-wide error reporting: [lib/error.c], [gnuastro/error.h]
      and [gnuastro/errorinprogram.h]

    A shallow embedding of the error chain of the Gnuastro library and the
    proofs of its specification.

    Conventions of the embedding.
    - A C integer is a [Z]; every conversion to [uint8_t] or [uint32_t]
      (a store into a field, a parameter passed to a function) is written
      out with [uint8] and [uint32].
    - A [char *] is an [option string]: [None] is the [NULL] pointer.  A
      deep copy of a string is the string itself.
    - A [gal_error_t *] chain is the list of its nodes, head first: the
      [next] pointer of a node is the tail of the list and [NULL] is [[]].
    - The standard error stream and process termination are threaded through
      the small monad [proc].  Allocation is assumed to succeed. *)

From Stdlib Require Import ZArith List String Ascii Lia Bool DecimalString.
Import ListNotations.

Local Open Scope string_scope.
Local Open Scope list_scope.
Local Open Scope Z_scope.

(** ** Machine integers *)

Definition uint8 (x : Z) : Z := x mod 2 ^ 8.
Definition uint32 (x : Z) : Z := x mod 2 ^ 32.

(** [<stdlib.h>] *)
Definition EXIT_SUCCESS : Z := 0.
Definition EXIT_FAILURE : Z := 1.

(** ** The process: standard error and termination *)

(** One entry per message written to the stream. *)
Definition stream : Type := list string.

(** [Undefined] is a run that the C standard, or what the model holds of
    the machine, says nothing about. *)
Inductive outcome (A : Type) : Type :=
| Returns (a : A)
| Exits (status : Z)
| Undefined.

Arguments Returns {A} a.
Arguments Exits {A} status.
Arguments Undefined {A}.

Definition proc (A : Type) : Type := stream -> stream * outcome A.

Definition ret {A : Type} (a : A) : proc A := fun stderr => (stderr, Returns a).

Definition bind {A B : Type} (m : proc A) (k : A -> proc B) : proc B :=
  fun stderr =>
    match m stderr with
    | (stderr', Returns a) => k a stderr'
    | (stderr', Exits status) => (stderr', Exits status)
    | (stderr', Undefined) => (stderr', Undefined)
    end.

Notation "x <- m ;; k" := (bind m (fun x => k))
  (at level 61, m at next level, right associativity).
Notation "m ;;; k" := (bind m (fun _ => k))
  (at level 61, right associativity).

(** [exit(3)]. *)
Definition exit {A : Type} (status : Z) : proc A :=
  fun stderr => (stderr, Exits status).

(** [error(3)] of glibc with [errnum = 0]: the message goes to standard
    error as one line (glibc puts the program name before it and a newline
    after it), and the process terminates when [status] is not zero.  The
    message is the text after formatting. *)
Definition error (status : Z) (message : string) : proc unit :=
  fun stderr =>
    let stderr' := stderr ++ [message] in
    if status =? 0 then (stderr', Returns tt) else (stderr', Exits status).

(** What [printf] makes of a format when no argument follows it: every
    character is copied, except that [%%] gives one [%].  Any other
    conversion specification has no result: it reads an argument that was
    not passed, or, for the [%m] of glibc, the value of [errno], and a [%]
    that ends the format is no conversion specification at all. *)
Fixpoint printf_no_args (format : string) : option string :=
  match format with
  | EmptyString => Some EmptyString
  | String ch rest =>
      if (ch =? "%")%char then
        match rest with
        | String ch' rest' =>
            if (ch' =? "%")%char
            then option_map (String "%"%char) (printf_no_args rest')
            else None
        | EmptyString => None
        end
      else option_map (String ch) (printf_no_args rest)
  end.

(** A string in which the character [%] does not occur. *)
Fixpoint percent_free (s : string) : bool :=
  match s with
  | EmptyString => true
  | String ch rest => negb (ch =? "%")%char && percent_free rest
  end.

(** [error(status, 0, format)], with a format and no argument after it. *)
Definition error_no_args (status : Z) (format : string) : proc unit :=
  match printf_no_args format with
  | Some message => error status message
  | None => fun stderr => (stderr, Undefined)
  end.

(** The conversions of [printf]: [%d] and [%s] (glibc prints a [NULL]
    string as [(null)]). *)
Definition fmt_d (n : Z) : string := NilZero.string_of_int (Z.to_int n).

Definition fmt_s (s : option string) : string :=
  match s with
  | Some s => s
  | None => "(null)"
  end.

(** ** [gnuastro/error.h] *)

(** The macro [GAL_ERROR_BITSET(lib_code, code, is_warning)]. *)
Definition GAL_ERROR_BITSET (lib_code code is_warning : Z) : Z :=
  Z.lor (Z.lor (Z.shiftl lib_code 16) (Z.shiftl code 8)) is_warning.

(** [struct gal_error_t]; the [next] field is the tail of the chain. *)
Record gal_error_t : Type := mk_gal_error_t {
  code : Z;
  lib_code : Z;
  type : Z;
  is_warning : Z;
  back_msg : option string;
  front_msg : option string
}.

Definition chain : Type := list gal_error_t.

(** [enum gal_error_library_codes] *)
Definition GAL_ERROR_LIB_INVALID : Z := 0.
Definition GAL_ERROR_LIB_ARITHMETIC : Z := 1.
Definition GAL_ERROR_LIB_ARRAY : Z := 2.
Definition GAL_ERROR_LIB_BINARY : Z := 3.
Definition GAL_ERROR_LIB_BLANK : Z := 4.
Definition GAL_ERROR_LIB_BOX : Z := 5.
Definition GAL_ERROR_LIB_COLOR : Z := 6.
Definition GAL_ERROR_LIB_CONVOLVE : Z := 7.
Definition GAL_ERROR_LIB_COSMOLOGY : Z := 8.
Definition GAL_ERROR_LIB_DATA : Z := 9.
Definition GAL_ERROR_LIB_DIMENSION : Z := 10.
Definition GAL_ERROR_LIB_DS9 : Z := 11.
Definition GAL_ERROR_LIB_EPS : Z := 12.
Definition GAL_ERROR_LIB_ERROR : Z := 13.
Definition GAL_ERROR_LIB_ERRORINPROGRAM : Z := 14.
Definition GAL_ERROR_LIB_FIT : Z := 15.
Definition GAL_ERROR_LIB_FITS : Z := 16.
Definition GAL_ERROR_LIB_GIT : Z := 17.
Definition GAL_ERROR_LIB_INTERPOLATE : Z := 18.
Definition GAL_ERROR_LIB_JPEG : Z := 19.
Definition GAL_ERROR_LIB_KDTREE : Z := 20.
Definition GAL_ERROR_LIB_LABEL : Z := 21.
Definition GAL_ERROR_LIB_LIST : Z := 22.
Definition GAL_ERROR_LIB_MATCH : Z := 23.
Definition GAL_ERROR_LIB_PDF : Z := 24.
Definition GAL_ERROR_LIB_PERMUTATION : Z := 25.
Definition GAL_ERROR_LIB_POINTER : Z := 26.
Definition GAL_ERROR_LIB_POLYGON : Z := 27.
Definition GAL_ERROR_LIB_POOL : Z := 28.
Definition GAL_ERROR_LIB_PYTHON : Z := 29.
Definition GAL_ERROR_LIB_QSORT : Z := 30.
Definition GAL_ERROR_LIB_SPECLINES : Z := 31.
Definition GAL_ERROR_LIB_STATISTICS : Z := 32.
Definition GAL_ERROR_LIB_TABLE : Z := 33.
Definition GAL_ERROR_LIB_THREADS : Z := 34.
Definition GAL_ERROR_LIB_TIFF : Z := 35.
Definition GAL_ERROR_LIB_TILE : Z := 36.
Definition GAL_ERROR_LIB_TXT : Z := 37.
Definition GAL_ERROR_LIB_TYPE : Z := 38.
Definition GAL_ERROR_LIB_UNITS : Z := 39.
Definition GAL_ERROR_LIB_WARP : Z := 40.
Definition GAL_ERROR_LIB_WCS : Z := 41.
Definition GAL_ERROR_LIB_NUMLIBS : Z := 42.

(** ** [lib/error.c] *)

(** The [case] labels of [gal_error_print_lib_name] with the string each
    one returns. *)
Definition gal_error_print_lib_name_cases : list (Z * string) :=
  [
     (GAL_ERROR_LIB_ARITHMETIC, "arithmetic.h");
     (GAL_ERROR_LIB_ARRAY, "array.h");
     (GAL_ERROR_LIB_BINARY, "binary.h");
     (GAL_ERROR_LIB_BLANK, "blank.h");
     (GAL_ERROR_LIB_BOX, "box.h");
     (GAL_ERROR_LIB_COLOR, "color.h");
     (GAL_ERROR_LIB_CONVOLVE, "convolve.h");
     (GAL_ERROR_LIB_COSMOLOGY, "cosmology.h");
     (GAL_ERROR_LIB_DATA, "data.h");
     (GAL_ERROR_LIB_DIMENSION, "dimension.h");
     (GAL_ERROR_LIB_DS9, "ds9.h");
     (GAL_ERROR_LIB_EPS, "eps.h");
     (GAL_ERROR_LIB_ERROR, "error.h");
     (GAL_ERROR_LIB_ERRORINPROGRAM, "errorinprogram.h");
     (GAL_ERROR_LIB_FIT, "fit.h");
     (GAL_ERROR_LIB_FITS, "fits.h");
     (GAL_ERROR_LIB_GIT, "git.h");
     (GAL_ERROR_LIB_INTERPOLATE, "interpolate.h");
     (GAL_ERROR_LIB_JPEG, "jpeg.h");
     (GAL_ERROR_LIB_KDTREE, "kdtree.h");
     (GAL_ERROR_LIB_LABEL, "label.h");
     (GAL_ERROR_LIB_LIST, "list.h");
     (GAL_ERROR_LIB_MATCH, "match.h");
     (GAL_ERROR_LIB_PDF, "pdf.h");
     (GAL_ERROR_LIB_PERMUTATION, "permutation.h");
     (GAL_ERROR_LIB_POINTER, "pointer.h");
     (GAL_ERROR_LIB_POLYGON, "polygon.h");
     (GAL_ERROR_LIB_POOL, "pool.h");
     (GAL_ERROR_LIB_PYTHON, "python.h");
     (GAL_ERROR_LIB_QSORT, "qsort.h");
     (GAL_ERROR_LIB_SPECLINES, "speclines.h");
     (GAL_ERROR_LIB_STATISTICS, "statistics.h");
     (GAL_ERROR_LIB_TABLE, "table.h");
     (GAL_ERROR_LIB_THREADS, "threads.h");
     (GAL_ERROR_LIB_TIFF, "tiff.h");
     (GAL_ERROR_LIB_TILE, "tile.h");
     (GAL_ERROR_LIB_TXT, "txt.h");
     (GAL_ERROR_LIB_TYPE, "type.h");
     (GAL_ERROR_LIB_UNITS, "units.h");
     (GAL_ERROR_LIB_WARP, "warp.h");
     (GAL_ERROR_LIB_WCS, "wcs.h")
  ].

Section Presenter.

(** [PACKAGE_BUGREPORT] comes from [config.h], written at configuration
    time. *)
Variable PACKAGE_BUGREPORT : string.

Definition gal_error_print_lib_name (lib_code : Z) : string :=
  match find (fun c => fst c =? lib_code) gal_error_print_lib_name_cases with
  | Some (_, name) => name
  | None => "NOT-DEFINED! A bug! Please contact us at " ++ PACKAGE_BUGREPORT
  end.

Definition gal_error_to_string (err : gal_error_t) (verbose : Z) : string :=
  let stat := if is_warning err =? 0 then "[BREAKING]" else "[WARNING]" in
  match front_msg err with
  | Some front =>
      front ++ ": " ++ gal_error_print_lib_name (lib_code err) ++ ": "
        ++ fmt_d (code err) ++ ": " ++ fmt_s (back_msg err) ++ " " ++ stat
  | None =>
      gal_error_print_lib_name (lib_code err) ++ ": "
        ++ fmt_d (code err) ++ ": " ++ fmt_s (back_msg err) ++ " " ++ stat
  end.

(** The [for] loop of [gal_error_to_stderr_all]: [err] is the head of the
    chain, [tmperr] the node the loop is at.  The string of a record is
    handed to [error] as its format.  The counter is a C [int]; it is
    counted in [Z] here, which is exact for a chain of fewer than [2^31]
    nodes. *)
Fixpoint gal_error_to_stderr_all_loop (err : gal_error_t) (tmperr : chain)
    (verbose : Z) (ncritical : Z) : proc Z :=
  match tmperr with
  | [] => ret ncritical
  | node :: next =>
      let ncritical :=
        if is_warning err =? 0 then ncritical + 1 else ncritical in
      let errstr := gal_error_to_string node verbose in
      error_no_args EXIT_SUCCESS errstr ;;;
      gal_error_to_stderr_all_loop err next verbose ncritical
  end.

Definition gal_error_to_stderr_all (err : chain) (verbose : Z) : proc Z :=
  match err with
  | [] => ret 0
  | head :: _ => gal_error_to_stderr_all_loop head err verbose 0
  end.

(** Modelled from the spec: [gal_error_print], the function that
    [gal_errorinprogram] calls, is defined in no source file.  The
    specification says that the boundary guard invokes [print_all], which
    returns 0 without touching the output stream when the chain is empty
    and otherwise visits every record from the head on, writes one
    formatted line per record, and returns the number of records whose own
    severity is not a warning. *)
Fixpoint gal_error_print (err : chain) (verbose : Z) : proc Z :=
  match err with
  | [] => ret 0
  | node :: next =>
      error EXIT_SUCCESS (gal_error_to_string node verbose) ;;;
      critical_count <- gal_error_print next verbose ;;
      ret (if is_warning node =? 0 then critical_count + 1
           else critical_count)
  end.

End Presenter.

Definition gal_error_occurred (err : chain) : Z :=
  match err with
  | [] => 0
  | head :: _ => if is_warning head =? 0 then 1 else 0
  end.

(** Modelled from the spec: [gal_checkset_allocate_copy] is defined in
    [lib/checkset.c], which is not among the sources; the specification
    says that the message is deep-copied.  The copy of an absent message is
    absent. *)
Definition gal_checkset_allocate_copy (arg : option string) : option string :=
  arg.

(** [calloc] zeroes the node, so [type] and [front_msg] start as [0] and
    [NULL]. *)
Definition gal_error_allocate (lib_code code : Z) (back_msg : option string)
    (is_warning : Z) : gal_error_t :=
  {| code := uint8 code;
     lib_code := uint8 lib_code;
     type := 0;
     is_warning := uint8 is_warning;
     back_msg := gal_checkset_allocate_copy back_msg;
     front_msg := None |}.

(** The three output parameters are returned as a triple
    [(lib_code, code, is_warning)]. *)
Definition gal_error_bits_extract (bitstring : Z) : Z * Z * Z :=
  let bitstring := uint32 bitstring in
  let is_warning := if negb (bitstring mod 2 =? 0) then 1 else 0 in
  let code := uint8 (Z.land (Z.shiftr bitstring 8) 255) in
  let lib_code := uint8 (Z.land (Z.shiftr bitstring 16) 255) in
  (lib_code, code, is_warning).

Definition gal_error_add_back_msg (err : chain) (back_msg : option string)
    (bitstring : Z) : chain :=
  match back_msg with
  | None => err
  | Some _ =>
      let '(lib_code, code, is_warning) := gal_error_bits_extract bitstring in
      let newerr := gal_error_allocate lib_code code back_msg is_warning in
      newerr :: err
  end.

Definition set_front_msg (err : gal_error_t) (msg : option string)
    : gal_error_t :=
  {| code := code err;
     lib_code := lib_code err;
     type := type err;
     is_warning := is_warning err;
     back_msg := back_msg err;
     front_msg := msg |}.

Definition is_set (s : option string) : bool :=
  match s with
  | Some _ => true
  | None => false
  end.

Definition gal_error_add_front_msg (err : chain) (front_msg_arg : option string)
    (replace : Z) : proc chain :=
  match err, front_msg_arg with
  | [], _ => ret err
  | _ :: _, None => ret err
  | top :: next, Some _ =>
      if is_set (front_msg top) && (uint8 replace =? 0) then
        error EXIT_FAILURE
          ("gal_error_add_front_msg: A frontend error message already exists "
           ++ "for the given error " ++ fmt_d (code top)
           ++ ". If you wish to replace it then pass "
           ++ "'1' to the replace flag while calling the function.") ;;;
        ret err
      else
        ret (set_front_msg top (gal_checkset_allocate_copy front_msg_arg)
               :: next)
  end.

(** The [while] loop of [gal_error_reverse]. *)
Fixpoint gal_error_reverse_loop (err correctorder : chain) : proc chain :=
  match err with
  | [] => ret correctorder
  | top :: next =>
      let bitstring := uint32 (lib_code top) in
      let bitstring := uint32 (Z.lor (Z.shiftl bitstring 8) (code top)) in
      let bitstring := uint32 (Z.lor (Z.shiftl bitstring 8) (is_warning top)) in
      let correctorder :=
        gal_error_add_back_msg correctorder (back_msg top) bitstring in
      correctorder <- gal_error_add_front_msg correctorder (front_msg top) 0 ;;
      gal_error_reverse_loop next correctorder
  end.

Definition gal_error_reverse (err : chain) : proc chain :=
  match err with
  | [] => ret err
  | [_] => ret err
  | _ :: _ :: _ => gal_error_reverse_loop err []
  end.

Definition gal_error_check (err : chain) (bitstring : Z) : Z :=
  let '(_, code_arg, _) := gal_error_bits_extract bitstring in
  if existsb (fun tmperr => code tmperr =? code_arg) err then 1 else 0.

(** [gal_error]: [errstr] is what [vasprintf] produced from the format and
    the variable arguments, [None] when it failed. *)
Definition gal_error (err : chain) (lib_code error_code is_warning : Z)
    (errstr : option string) : chain :=
  let code := uint32 (GAL_ERROR_BITSET lib_code error_code is_warning) in
  let errstr :=
    match errstr with
    | Some s => Some s
    | None => Some ("gal_error" ++ ": can not use 'vasprintf'")%string
    end in
  gal_error_add_back_msg err errstr code.

(** ** [gnuastro/errorinprogram.h] *)

(** [gal_errorinprogram] calls [gal_error_print], which no source file
    defines: the function takes it as a parameter. *)
Definition gal_errorinprogram (gal_error_print : chain -> proc Z)
    (error : chain) : proc unit :=
  n <- gal_error_print error ;;
  if n =? 0 then ret tt else exit EXIT_FAILURE.

(** ** The layout of an error identifier, as the specification words it *)

(** The 8-bit field of [v] that starts at bit [lo]. *)
Definition byte_at (v lo : Z) : Z := Z.land (Z.shiftr v lo) 255.

(** A value clamped to the range [0,255]. *)
Definition clamp255 (x : Z) : Z := Z.max 0 (Z.min x 255).

(** ** The decimal numeral of an error code, digit by digit *)

Definition digit (d : Z) : string :=
  String (ascii_of_nat (48 + Z.to_nat d)) EmptyString.

(** The numeral of a value in [0,255], without leading zeros. *)
Definition decimal_uint8 (n : Z) : string :=
  if n <? 10 then digit n
  else if n <? 100 then (digit (n / 10) ++ digit (n mod 10))%string
  else (digit (n / 100) ++ digit (n / 10 mod 10) ++ digit (n mod 10))%string.

(** ** Records, as the specification words them *)

(** The record that pushing [message] with [bitstring] creates, once it has
    been given the front message [front] (none when [front] is [None]). *)
Definition pushed (message : string) (bitstring : Z) (front : option string)
    : gal_error_t :=
  {| code := byte_at bitstring 8;
     lib_code := byte_at bitstring 16;
     type := 0;
     is_warning := if Z.odd bitstring then 1 else 0;
     back_msg := Some message;
     front_msg := front |}.

(** A record as the data model has it: the three numeric fields are
    [uint8_t] values and the back message is present. *)
Definition well_formed (r : gal_error_t) : Prop :=
  0 <= code r < 256 /\ 0 <= lib_code r < 256 /\ 0 <= is_warning r < 256 /\
  is_set (back_msg r) = true.

(** A record whose severity has been reduced to its parity, in a node that
    [calloc] zeroed. *)
Definition normalised (r : gal_error_t) : gal_error_t :=
  {| code := code r;
     lib_code := lib_code r;
     type := 0;
     is_warning := is_warning r mod 2;
     back_msg := back_msg r;
     front_msg := front_msg r |}.

Definition boolean_severity (r : gal_error_t) : Prop :=
  is_warning r = 0 \/ is_warning r = 1.

(** ** The rest of [lib/error.c] *)

(** [gal_error_exists_leave_func]: the pointer parameter [err] is returned
    beside the result.  The message is what [vasprintf] makes of the format
    and [func]. *)
Definition gal_error_exists_leave_func (err : chain)
    (lib_code error_code is_warning : Z) (func : option string) : chain * Z :=
  match err with
  | _ :: _ =>
      (gal_error err lib_code error_code is_warning
         (Some (fmt_s func ++ ": error point is not empty, will not "
                  ++ "continue")%string),
       1)
  | [] => (err, 0)
  end.

(** ** Records as the functions of [lib/error.c] leave them *)

(** What holds of a record that [gal_error_add_back_msg] created: beside
    being well formed, its severity is 0 or 1 and its [type] is the 0 of
    [calloc]. *)
Definition as_allocated (r : gal_error_t) : Prop :=
  well_formed r /\ boolean_severity r /\ type r = 0.

(** * Properties *)

(** ** Bit fields as arithmetic *)

Lemma testbit_above (x k n : Z) :
  0 <= k -> 0 <= x < 2 ^ k -> k <= n -> Z.testbit x n = false.
Proof.
  intros Hk Hx Hn.
  rewrite <- (Z.mod_small x (2 ^ k)) by exact Hx.
  apply Z.mod_pow2_bits_high; lia.
Qed.

Lemma lor_disjoint_add (hi lo k : Z) :
  0 <= k -> 0 <= lo < 2 ^ k -> Z.lor (hi * 2 ^ k) lo = hi * 2 ^ k + lo.
Proof.
  intros Hk Hlo.
  assert (Hand : Z.land (hi * 2 ^ k) lo = 0).
  { apply Z.bits_inj'; intros n Hn.
    rewrite Z.land_spec, Z.bits_0.
    destruct (Z.ltb_spec n k) as [Hlt | Hge].
    - rewrite Z.mul_pow2_bits_low by lia. reflexivity.
    - rewrite (testbit_above lo k n) by lia. apply andb_false_r. }
  rewrite <- Z.lxor_lor by exact Hand.
  symmetry. apply Z.add_nocarry_lxor. exact Hand.
Qed.

Lemma GAL_ERROR_BITSET_sum (l c w : Z) :
  0 <= c < 256 -> 0 <= w < 256 ->
  GAL_ERROR_BITSET l c w = l * 65536 + c * 256 + w.
Proof.
  intros Hc Hw. unfold GAL_ERROR_BITSET.
  rewrite !Z.shiftl_mul_pow2 by lia.
  rewrite (lor_disjoint_add l (c * 2 ^ 8) 16) by lia.
  replace (l * 2 ^ 16 + c * 2 ^ 8) with ((l * 2 ^ 8 + c) * 2 ^ 8) by lia.
  rewrite (lor_disjoint_add (l * 2 ^ 8 + c) w 8) by lia.
  lia.
Qed.

Lemma field_of_sum (l c w : Z) :
  0 <= l < 256 -> 0 <= c < 256 -> 0 <= w < 256 ->
  let v := l * 65536 + c * 256 + w in
  Z.land (Z.shiftr v 16) 255 = l /\
  Z.land (Z.shiftr v 8) 255 = c /\
  Z.land v 255 = w.
Proof.
  intros Hl Hc Hw v. subst v.
  change 255 with (Z.ones 8).
  rewrite !Z.land_ones, !Z.shiftr_div_pow2 by lia.
  change (2 ^ 16) with 65536. change (2 ^ 8) with 256.
  repeat split; Z.div_mod_to_equations; lia.
Qed.

Lemma gal_error_bits_extract_sum (l c w : Z) :
  0 <= l < 256 -> 0 <= c < 256 -> 0 <= w < 256 ->
  gal_error_bits_extract (l * 65536 + c * 256 + w) = (l, c, w mod 2).
Proof.
  intros Hl Hc Hw.
  destruct (field_of_sum l c w Hl Hc Hw) as (Fl & Fc & _).
  unfold gal_error_bits_extract, uint32, uint8.
  rewrite (Z.mod_small (l * 65536 + c * 256 + w) (2 ^ 32)) by lia.
  rewrite Fl, Fc, !Z.mod_small by lia.
  replace ((l * 65536 + c * 256 + w) mod 2) with (w mod 2)
    by (Z.div_mod_to_equations; lia).
  destruct (Z.eqb_spec (w mod 2) 0) as [E | E]; cbn [negb].
  - now rewrite E.
  - f_equal. Z.div_mod_to_equations; lia.
Qed.

(** The severity that [gal_error_bits_extract] reports is the parity of its
    argument, whatever the argument. *)
Lemma gal_error_bits_extract_parity (bitstring : Z) :
  snd (gal_error_bits_extract bitstring) = if Z.odd bitstring then 1 else 0.
Proof.
  unfold gal_error_bits_extract, uint32. cbn [snd].
  replace ((bitstring mod 2 ^ 32) mod 2) with (bitstring mod 2).
  2:{ change (2 ^ 32) with (2 * 2147483648).
      rewrite Z.rem_mul_r by lia.
      rewrite Z.mul_comm, Z.mod_add by lia.
      now rewrite Z.mod_mod by lia. }
  rewrite Zmod_odd. now destruct (Z.odd bitstring).
Qed.

Lemma byte_at_range (v lo : Z) : 0 <= byte_at v lo < 256.
Proof.
  unfold byte_at. change 255 with (Z.ones 8).
  rewrite Z.land_ones by lia. apply Z.mod_pos_bound. lia.
Qed.

Lemma uint8_small (x : Z) : 0 <= x < 256 -> uint8 x = x.
Proof. intros H. unfold uint8. apply Z.mod_small. lia. Qed.

Lemma byte_at_uint32 (v lo : Z) :
  0 <= lo -> lo + 8 <= 32 -> byte_at (uint32 v) lo = byte_at v lo.
Proof.
  intros Hlo Hhi. unfold byte_at, uint32.
  rewrite <- (Z.land_ones v 32) by lia.
  change 255 with (Z.ones 8).
  apply Z.bits_inj'; intros n Hn.
  rewrite !Z.land_spec, !Z.shiftr_spec, Z.land_spec by lia.
  destruct (Z.ltb_spec n 8) as [Hlt | Hge].
  - rewrite (Z.ones_spec_low 32 (n + lo)) by lia. now rewrite andb_true_r.
  - rewrite (Z.ones_spec_high 8 n) by lia. now rewrite !andb_false_r.
Qed.

(** What [gal_error_bits_extract] returns, for every argument. *)
Lemma gal_error_bits_extract_eq (bitstring : Z) :
  gal_error_bits_extract bitstring
    = (byte_at bitstring 16, byte_at bitstring 8,
       if Z.odd bitstring then 1 else 0).
Proof.
  pose proof (gal_error_bits_extract_parity bitstring) as Hp.
  unfold gal_error_bits_extract in *. cbn [snd] in Hp. rewrite Hp.
  fold (byte_at (uint32 bitstring) 8). fold (byte_at (uint32 bitstring) 16).
  rewrite !byte_at_uint32 by lia.
  rewrite !uint8_small by apply byte_at_range.
  reflexivity.
Qed.

(** ** The codec: [GAL_ERROR_BITSET] and [gal_error_bits_extract] *)

(** The macro shifts and ors its arguments as they are: an argument above
    255 reaches into the next field.  With [code = 256] the field at bits
    16-23 reads 1 although [lib_code] is 0, so the fields of the identifier
    are not the clamped arguments. *)
Lemma GAL_ERROR_BITSET_not_clamped :
  ~ (forall l c w : Z,
        let v := uint32 (GAL_ERROR_BITSET l c w) in
        byte_at v 16 = clamp255 l /\
        byte_at v 8 = clamp255 c /\
        byte_at v 0 = clamp255 w).
Proof.
  intros H. specialize (H 0 256 0).
  vm_compute in H. destruct H as [H _]. discriminate H.
Qed.

(** C3, as amended: when [lib_code], [code] and [is_warning] all lie in
    [0,255], [GAL_ERROR_BITSET] yields a value below [2^24] whose bits
    16-23, 8-15 and 0-7 are [lib_code], [code] and [is_warning], each
    unchanged. *)
Theorem GAL_ERROR_BITSET_fields (l c w : Z) :
  0 <= l <= 255 -> 0 <= c <= 255 -> 0 <= w <= 255 ->
  let v := GAL_ERROR_BITSET l c w in
  0 <= v < 2 ^ 24 /\
  uint32 v = v /\
  byte_at v 16 = l /\
  byte_at v 8 = c /\
  byte_at v 0 = w.
Proof.
  intros Hl Hc Hw v. subst v.
  rewrite GAL_ERROR_BITSET_sum by lia.
  destruct (field_of_sum l c w) as (Fl & Fc & Fw); try lia.
  unfold byte_at, uint32. rewrite Z.shiftr_0_r.
  repeat split; try assumption; try lia.
  apply Z.mod_small. lia.
Qed.

Lemma GAL_ERROR_BITSET_fields_witness :
  let v := GAL_ERROR_BITSET 3 5 1 in
  0 <= v < 2 ^ 24 /\
  uint32 v = v /\
  byte_at v 16 = 3 /\
  byte_at v 8 = 5 /\
  byte_at v 0 = 1.
Proof.
  apply (GAL_ERROR_BITSET_fields 3 5 1); lia.
Defined.

(** [is_warning] is an [int] where [gal_error] encodes it.  At 256 it
    lands on bit 8, the lowest bit of the code field: the identifier of
    [(0, 0, 256)] decodes with [code = 1]. *)
Lemma gal_error_bits_extract_wide_is_warning :
  ~ (forall l c w : Z,
        0 <= l <= 255 -> 0 <= c <= 255 ->
        exists w' : Z,
          gal_error_bits_extract (GAL_ERROR_BITSET l c w) = (l, c, w') /\
          (w' = 1 <-> Z.odd (uint32 (GAL_ERROR_BITSET l c w)) = true)).
Proof.
  intros H. destruct (H 0 0 256) as (w' & E & _); try lia.
  vm_compute in E. discriminate E.
Qed.

(** C5, as amended: for [lib_code], [code] and [is_warning] in [0,255],
    decoding the encoded identifier returns the same [lib_code] and the
    same [code], and [is_warning = 1] exactly when the identifier is odd,
    [0] otherwise; with [is_warning = 2] the identifier decodes as not a
    warning. *)
Theorem gal_error_bits_extract_GAL_ERROR_BITSET (l c w : Z) :
  0 <= l <= 255 -> 0 <= c <= 255 -> 0 <= w <= 255 ->
  gal_error_bits_extract (GAL_ERROR_BITSET l c w)
    = (l, c, if Z.odd (GAL_ERROR_BITSET l c w) then 1 else 0) /\
  Z.odd (GAL_ERROR_BITSET l c w) = Z.odd w /\
  gal_error_bits_extract (GAL_ERROR_BITSET l c 2) = (l, c, 0).
Proof.
  intros Hl Hc Hw.
  assert (Hodd : forall x, 0 <= x <= 255 ->
            Z.odd (GAL_ERROR_BITSET l c x) = Z.odd x).
  { intros x Hx. rewrite GAL_ERROR_BITSET_sum by lia.
    replace (l * 65536 + c * 256 + x)
      with (x + 2 * (l * 32768 + c * 128)) by lia.
    rewrite Z.odd_add_mul_2. reflexivity. }
  assert (Hext : forall x, 0 <= x <= 255 ->
            gal_error_bits_extract (GAL_ERROR_BITSET l c x)
              = (l, c, if Z.odd (GAL_ERROR_BITSET l c x) then 1 else 0)).
  { intros x Hx.
    pose proof (gal_error_bits_extract_parity (GAL_ERROR_BITSET l c x)) as Hp.
    rewrite GAL_ERROR_BITSET_sum in * by lia.
    rewrite gal_error_bits_extract_sum in * by lia.
    cbn [snd] in Hp. now rewrite Hp. }
  split; [apply Hext; lia | split; [apply Hodd; lia |]].
  rewrite Hext, Hodd by lia. reflexivity.
Qed.

Lemma gal_error_bits_extract_GAL_ERROR_BITSET_witness :
  gal_error_bits_extract (GAL_ERROR_BITSET 3 5 2)
    = (3, 5, if Z.odd (GAL_ERROR_BITSET 3 5 2) then 1 else 0) /\
  Z.odd (GAL_ERROR_BITSET 3 5 2) = Z.odd 2 /\
  gal_error_bits_extract (GAL_ERROR_BITSET 3 5 2) = (3, 5, 0).
Proof.
  apply (gal_error_bits_extract_GAL_ERROR_BITSET 3 5 2); lia.
Defined.

(** ** The chain: pushing, checking, adding context *)

Lemma gal_error_add_back_msg_pushed (err : chain) (message : string)
    (bitstring : Z) :
  gal_error_add_back_msg err (Some message) bitstring
    = pushed message bitstring None :: err.
Proof.
  unfold gal_error_add_back_msg, gal_error_allocate, pushed,
    gal_checkset_allocate_copy.
  rewrite gal_error_bits_extract_eq.
  rewrite !uint8_small by apply byte_at_range.
  rewrite uint8_small by (destruct (Z.odd bitstring); lia).
  reflexivity.
Qed.

(** A message that is the empty string is a message: the test of
    [gal_error_add_back_msg] is on the pointer, so the empty string is
    pushed like any other text and the chain grows by one record. *)
Lemma gal_error_add_back_msg_empty_string :
  ~ (forall (err : chain) (bitstring : Z),
        List.length
          (gal_error_add_back_msg err (Some EmptyString) bitstring)
        = List.length err).
Proof.
  intros H. specialize (H [] 0).
  rewrite gal_error_add_back_msg_pushed in H. discriminate H.
Qed.

(** C4, as amended: [gal_error_add_back_msg] with no message (the [NULL]
    pointer) returns the chain as it was, so its length is unchanged; with
    a message, the empty string included, it puts in front of the chain a
    new record that carries the decoded fields of the bitstring (bits
    16-23, bits 8-15, parity), the message, and no front message. *)
Theorem gal_error_add_back_msg_spec (err : chain) (bitstring : Z) :
  gal_error_add_back_msg err None bitstring = err /\
  List.length (gal_error_add_back_msg err None bitstring) = List.length err /\
  forall message : string,
    gal_error_add_back_msg err (Some message) bitstring
      = {| code := byte_at bitstring 8;
           lib_code := byte_at bitstring 16;
           type := 0;
           is_warning := if Z.odd bitstring then 1 else 0;
           back_msg := Some message;
           front_msg := None |} :: err /\
    gal_error_bits_extract bitstring
      = (byte_at bitstring 16, byte_at bitstring 8,
         if Z.odd bitstring then 1 else 0) /\
    List.length (gal_error_add_back_msg err (Some message) bitstring)
      = S (List.length err).
Proof.
  split; [reflexivity | split; [reflexivity |]].
  intros message.
  rewrite gal_error_add_back_msg_pushed.
  repeat split. apply gal_error_bits_extract_eq.
Qed.

Lemma existsb_code (err : chain) (c : Z) :
  existsb (fun tmperr => code tmperr =? c) err = true
  <-> exists r, In r err /\ code r = c.
Proof.
  rewrite existsb_exists.
  split; intros (r & Hin & H); exists r; split; auto; lia.
Qed.

(** C7: [gal_error_check] returns 1 if and only if some record of the chain
    has its [code] equal to bits 8-15 of the bitstring, and 0 otherwise;
    two bitstrings with the same bits 8-15 give the same answer, whatever
    their library code and severity; after a push of (lib 1, code 5, not a
    warning) the check of (lib 99, code 5, warning) returns 1. *)
Theorem gal_error_check_spec (err : chain) (bitstring : Z) :
  (gal_error_check err bitstring = 1
   <-> exists r, In r err /\ code r = byte_at bitstring 8) /\
  (gal_error_check err bitstring = 0
   <-> ~ exists r, In r err /\ code r = byte_at bitstring 8) /\
  (forall other : Z,
      byte_at other 8 = byte_at bitstring 8 ->
      gal_error_check err other = gal_error_check err bitstring) /\
  (forall message : string,
      gal_error_check
        (gal_error_add_back_msg err (Some message) (GAL_ERROR_BITSET 1 5 0))
        (GAL_ERROR_BITSET 99 5 1) = 1).
Proof.
  assert (Hdef : forall e b,
            gal_error_check e b
              = if existsb (fun tmperr => code tmperr =? byte_at b 8) e
                then 1 else 0).
  { intros e b. unfold gal_error_check.
    now rewrite gal_error_bits_extract_eq. }
  split; [split | split; [split | split]].
  - rewrite Hdef. intros H. apply existsb_code.
    destruct (existsb _ err); [reflexivity | discriminate H].
  - rewrite Hdef. intros H. apply existsb_code in H. now rewrite H.
  - rewrite Hdef. intros H Hex. apply existsb_code in Hex.
    rewrite Hex in H. discriminate H.
  - rewrite Hdef. intros H.
    destruct (existsb _ err) eqn:E; [| reflexivity].
    exfalso. apply H. now apply existsb_code.
  - intros other Hsame. rewrite !Hdef, Hsame. reflexivity.
  - intros message. rewrite Hdef, gal_error_add_back_msg_pushed.
    reflexivity.
Qed.

(** [gal_error_add_front_msg] on a head that has no front message yet. *)
Lemma gal_error_add_front_msg_fresh (top : gal_error_t) (next : chain)
    (msg : option string) (replace : Z) (stderr : stream) :
  front_msg top = None ->
  gal_error_add_front_msg (top :: next) msg replace stderr
    = (stderr,
       Returns (match msg with
                | Some _ => set_front_msg top msg :: next
                | None => top :: next
                end)).
Proof.
  intros Hnone. unfold gal_error_add_front_msg.
  destruct msg as [m |]; [| reflexivity].
  rewrite Hnone. reflexivity.
Qed.

(** A front message that is the empty string is stored: the test of
    [gal_error_add_front_msg] is on the pointer, and the head of the chain
    it returns carries the empty string as its front message. *)
Lemma gal_error_add_front_msg_empty_string :
  ~ (forall (err : chain) (replace : Z) (stderr : stream),
        gal_error_add_front_msg err (Some EmptyString) replace stderr
        = (stderr, Returns err)).
Proof.
  intros H.
  specialize
    (H [mk_gal_error_t 5 3 0 0 (Some "division by zero"%string) None] 0 []).
  vm_compute in H. discriminate H.
Qed.

(** C8, as amended: [gal_error_add_front_msg] returns the chain untouched
    when the chain is empty or when no message is given (the [NULL]
    pointer); a message that is the empty string is stored like any other.
    On a head without a front message it stores the message and changes
    nothing else.  On a head that carries a front message, a zero replace
    flag makes it write a complaint and terminate the process with
    [EXIT_FAILURE], and a non-zero replace flag makes it return the chain
    whose head carries the new message in place of the old one; so of two
    calls in a row the second one is fatal without the flag and overwrites
    the first message with it. *)
Theorem gal_error_add_front_msg_spec (err : chain) (msg : option string)
    (c l t w : Z) (back : option string) (next : chain)
    (first second : string) (replace no yes : Z) (stderr : stream) :
  uint8 no = 0 ->
  uint8 yes <> 0 ->
  let without := mk_gal_error_t c l t w back None in
  let with_first := mk_gal_error_t c l t w back (Some first) in
  let with_second := mk_gal_error_t c l t w back (Some second) in
  gal_error_add_front_msg [] msg replace stderr = (stderr, Returns []) /\
  gal_error_add_front_msg err None replace stderr = (stderr, Returns err) /\
  gal_error_add_front_msg (without :: next) (Some first) replace stderr
    = (stderr, Returns (with_first :: next)) /\
  (exists complaint : string,
      gal_error_add_front_msg (with_first :: next) (Some second) no stderr
        = (stderr ++ [complaint], Exits EXIT_FAILURE)) /\
  gal_error_add_front_msg (with_first :: next) (Some second) yes stderr
    = (stderr, Returns (with_second :: next)) /\
  (exists complaint : string,
      (e <- gal_error_add_front_msg (without :: next) (Some first) replace ;;
       gal_error_add_front_msg e (Some second) no) stderr
        = (stderr ++ [complaint], Exits EXIT_FAILURE)) /\
  (e <- gal_error_add_front_msg (without :: next) (Some first) replace ;;
   gal_error_add_front_msg e (Some second) yes) stderr
    = (stderr, Returns (with_second :: next)).
Proof.
  intros Hno Hyes without with_first with_second.
  assert (Hfirst :
    gal_error_add_front_msg (without :: next) (Some first) replace stderr
      = (stderr, Returns (with_first :: next))).
  { now rewrite gal_error_add_front_msg_fresh. }
  assert (Hfatal : exists complaint : string,
    gal_error_add_front_msg (with_first :: next) (Some second) no stderr
      = (stderr ++ [complaint], Exits EXIT_FAILURE)).
  { eexists. unfold gal_error_add_front_msg, with_first.
    cbn [front_msg is_set code andb].
    rewrite Hno. reflexivity. }
  assert (Hover :
    gal_error_add_front_msg (with_first :: next) (Some second) yes stderr
      = (stderr, Returns (with_second :: next))).
  { unfold gal_error_add_front_msg, with_first.
    cbn [front_msg is_set andb].
    destruct (Z.eqb_spec (uint8 yes) 0) as [E | _]; [contradiction |].
    reflexivity. }
  split; [reflexivity |].
  split; [destruct err; reflexivity |].
  split; [exact Hfirst |].
  split; [exact Hfatal |].
  split; [exact Hover |].
  unfold bind. rewrite Hfirst.
  split; [exact Hfatal | exact Hover].
Qed.

Lemma gal_error_add_front_msg_spec_witness :
  let without :=
    mk_gal_error_t 5 3 0 0 (Some "division by zero"%string) None in
  let with_first :=
    mk_gal_error_t 5 3 0 0 (Some "division by zero"%string)
      (Some "compute_ratio"%string) in
  let with_second :=
    mk_gal_error_t 5 3 0 0 (Some "division by zero"%string)
      (Some "main"%string) in
  gal_error_add_front_msg [] (Some "compute_ratio"%string) 0 []
    = ([], Returns []) /\
  gal_error_add_front_msg [without] None 0 [] = ([], Returns [without]) /\
  gal_error_add_front_msg [without] (Some "compute_ratio"%string) 0 []
    = ([], Returns [with_first]) /\
  (exists complaint : string,
      gal_error_add_front_msg [with_first] (Some "main"%string) 256 []
        = ([] ++ [complaint], Exits EXIT_FAILURE)) /\
  gal_error_add_front_msg [with_first] (Some "main"%string) 1 []
    = ([], Returns [with_second]) /\
  (exists complaint : string,
      (e <- gal_error_add_front_msg [without] (Some "compute_ratio"%string) 0 ;;
       gal_error_add_front_msg e (Some "main"%string) 256) []
        = ([] ++ [complaint], Exits EXIT_FAILURE)) /\
  (e <- gal_error_add_front_msg [without] (Some "compute_ratio"%string) 0 ;;
   gal_error_add_front_msg e (Some "main"%string) 1) []
    = ([], Returns [with_second]).
Proof.
  apply (gal_error_add_front_msg_spec
           [mk_gal_error_t 5 3 0 0 (Some "division by zero"%string) None]
           (Some "compute_ratio"%string)
           5 3 0 0 (Some "division by zero"%string)
           [] "compute_ratio" "main" 0 256 1 []).
  - reflexivity.
  - vm_compute. discriminate.
Defined.

(** ** Reversal *)

(** The identifier that the loop of [gal_error_reverse] rebuilds from the
    fields of a node. *)
Lemma reverse_bitstring (l c w : Z) :
  0 <= l < 256 -> 0 <= c < 256 -> 0 <= w < 256 ->
  uint32 (Z.lor (Z.shiftl (uint32 (Z.lor (Z.shiftl (uint32 l) 8) c)) 8) w)
    = l * 65536 + c * 256 + w.
Proof.
  intros Hl Hc Hw. unfold uint32.
  rewrite (Z.mod_small l) by lia.
  rewrite !Z.shiftl_mul_pow2 by lia.
  rewrite (lor_disjoint_add l c 8) by lia.
  rewrite (Z.mod_small (l * 2 ^ 8 + c)) by lia.
  rewrite (lor_disjoint_add (l * 2 ^ 8 + c) w 8) by lia.
  rewrite Z.mod_small by lia. lia.
Qed.

(** One turn of the loop on a well-formed node: the node's copy, with its
    severity reduced to its parity, goes in front of the accumulator. *)
Lemma gal_error_reverse_loop_step (top : gal_error_t) (next acc : chain)
    (stderr : stream) :
  well_formed top ->
  gal_error_reverse_loop (top :: next) acc stderr
    = gal_error_reverse_loop next (normalised top :: acc) stderr.
Proof.
  intros (Hc & Hl & Hw & Hb).
  destruct top as [c l t w b f]; cbn [code lib_code is_warning back_msg] in *.
  destruct b as [b |]; [| discriminate Hb].
  cbn [gal_error_reverse_loop code lib_code is_warning back_msg front_msg].
  rewrite reverse_bitstring by assumption.
  unfold gal_error_add_back_msg.
  rewrite gal_error_bits_extract_sum by assumption.
  unfold gal_error_allocate, gal_checkset_allocate_copy.
  rewrite !uint8_small
    by (try assumption; pose proof (Z.mod_pos_bound w 2); lia).
  unfold bind.
  rewrite gal_error_add_front_msg_fresh by reflexivity.
  destruct f as [f |]; reflexivity.
Qed.

Lemma gal_error_reverse_loop_well_formed (err acc : chain) (stderr : stream) :
  Forall well_formed err ->
  gal_error_reverse_loop err acc stderr
    = (stderr, Returns (rev (map normalised err) ++ acc)).
Proof.
  intros Hwf. revert acc.
  induction Hwf as [| top next Htop _ IH]; intros acc.
  - reflexivity.
  - rewrite gal_error_reverse_loop_step by exact Htop.
    rewrite IH. cbn [map rev]. now rewrite <- app_assoc.
Qed.

Lemma well_formed_pushed (message : string) (bitstring : Z)
    (front : option string) :
  well_formed (pushed message bitstring front).
Proof.
  unfold well_formed, pushed; cbn.
  pose proof (byte_at_range bitstring 8).
  pose proof (byte_at_range bitstring 16).
  destruct (Z.odd bitstring); repeat split; lia.
Qed.

Lemma normalised_pushed (message : string) (bitstring : Z)
    (front : option string) :
  normalised (pushed message bitstring front) = pushed message bitstring front.
Proof.
  unfold normalised, pushed; cbn.
  destruct (Z.odd bitstring); reflexivity.
Qed.

(** Pushing a message and then giving the new head its front message (or
    none). *)
Lemma push_then_front (err : chain) (message : string) (bitstring : Z)
    (front : option string) (stderr : stream) :
  gal_error_add_front_msg
    (gal_error_add_back_msg err (Some message) bitstring) front 0 stderr
    = (stderr, Returns (pushed message bitstring front :: err)).
Proof.
  rewrite gal_error_add_back_msg_pushed.
  rewrite gal_error_add_front_msg_fresh by reflexivity.
  destruct front; reflexivity.
Qed.

(** C6: three pushes A, B, C, each followed by its optional front message,
    build the chain C, B, A; [gal_error_reverse] returns A, B, C, every
    record equal to the one that was pushed (code, library code, severity,
    back and front message); on the empty chain and on a chain of one
    record it returns the chain as it is. *)
Theorem gal_error_reverse_three_pushed (mA mB mC : string) (bA bB bC : Z)
    (fA fB fC : option string) (stderr : stream) :
  let A := pushed mA bA fA in
  let B := pushed mB bB fB in
  let C := pushed mC bC fC in
  (e <- gal_error_add_front_msg
          (gal_error_add_back_msg [] (Some mA) bA) fA 0 ;;
   e <- gal_error_add_front_msg
          (gal_error_add_back_msg e (Some mB) bB) fB 0 ;;
   gal_error_add_front_msg
     (gal_error_add_back_msg e (Some mC) bC) fC 0) stderr
    = (stderr, Returns [C; B; A]) /\
  gal_error_reverse [C; B; A] stderr = (stderr, Returns [A; B; C]) /\
  gal_error_reverse [] stderr = (stderr, Returns []) /\
  (forall r : gal_error_t,
      gal_error_reverse [r] stderr = (stderr, Returns [r])).
Proof.
  intros A B C.
  split; [| split; [| split; [reflexivity | reflexivity]]].
  - unfold bind. now rewrite !push_then_front.
  - unfold gal_error_reverse.
    rewrite gal_error_reverse_loop_well_formed
      by (repeat constructor; apply well_formed_pushed).
    cbn [map rev app]. subst A B C.
    now rewrite !normalised_pushed.
Qed.

(** Whatever the chain holds, every record that the loop of
    [gal_error_reverse] leaves in its accumulator has a severity of 0 or
    1. *)
Lemma gal_error_reverse_loop_boolean (err : chain) :
  forall (acc : chain) (stderr stderr' : stream) (res : chain),
    Forall boolean_severity acc ->
    gal_error_reverse_loop err acc stderr = (stderr', Returns res) ->
    Forall boolean_severity res.
Proof.
  induction err as [| top next IH]; intros acc stderr stderr' res Hacc Hrun.
  - cbn in Hrun. injection Hrun as _ <-. exact Hacc.
  - cbn [gal_error_reverse_loop] in Hrun.
    set (bitstring := uint32 (Z.lor _ (is_warning top))) in Hrun.
    unfold bind in Hrun.
    destruct (gal_error_add_front_msg _ (front_msg top) 0 stderr)
      as [stderr1 [acc1 | status |]] eqn:Efront;
      [| discriminate Hrun | discriminate Hrun].
    apply (IH acc1 stderr1 stderr' res); [| exact Hrun].
    assert (Hacc0 : Forall boolean_severity
                      (gal_error_add_back_msg acc (back_msg top) bitstring)).
    { destruct (back_msg top) as [b |]; [| exact Hacc].
      rewrite gal_error_add_back_msg_pushed. constructor; [| exact Hacc].
      unfold boolean_severity, pushed; cbn.
      destruct (Z.odd bitstring); lia. }
    revert Efront Hacc0.
    generalize (gal_error_add_back_msg acc (back_msg top) bitstring).
    intros acc0 Efront Hacc0. unfold gal_error_add_front_msg in Efront.
    destruct acc0 as [| head rest].
    + injection Efront as _ <-. constructor.
    + destruct (front_msg top) as [f |].
      * destruct (is_set (front_msg head) && (uint8 0 =? 0)).
        -- discriminate Efront.
        -- injection Efront as _ <-.
           inversion Hacc0 as [| ? ? Hhead Hrest]; subst.
           constructor; assumption.
      * injection Efront as _ <-. exact Hacc0.
Qed.

(** C10: on a chain of at least two records, whenever [gal_error_reverse]
    returns, every record of the chain it returns has [is_warning] equal to
    0 or 1; and on a chain of records with [uint8_t] fields and a back
    message it does return, with the records in the opposite order and the
    severity of each one replaced by its parity. *)
Theorem gal_error_reverse_boolean_severity (err : chain) (stderr : stream) :
  (2 <= List.length err)%nat ->
  (forall (stderr' : stream) (res : chain),
      gal_error_reverse err stderr = (stderr', Returns res) ->
      Forall boolean_severity res) /\
  (Forall well_formed err ->
   gal_error_reverse err stderr
     = (stderr, Returns (rev (map normalised err))) /\
   map is_warning (rev (map normalised err))
     = map (fun r => is_warning r mod 2) (rev err)).
Proof.
  intros Hlen.
  destruct err as [| r1 [| r2 rest]]; cbn in Hlen; try lia.
  split.
  - intros stderr' res Hrun. unfold gal_error_reverse in Hrun.
    apply (gal_error_reverse_loop_boolean _ _ _ _ _ (Forall_nil _) Hrun).
  - intros Hwf. split.
    + unfold gal_error_reverse.
      rewrite gal_error_reverse_loop_well_formed by exact Hwf.
      now rewrite app_nil_r.
    + rewrite <- map_rev, map_map. reflexivity.
Qed.

Lemma gal_error_reverse_boolean_severity_witness :
  let err := [ mk_gal_error_t 5 3 0 2 (Some "overflow"%string) None;
               mk_gal_error_t 7 1 0 255 (Some "underflow"%string)
                 (Some "caller"%string) ] in
  (2 <= List.length err)%nat /\
  Forall well_formed err /\
  (forall (stderr' : stream) (res : chain),
      gal_error_reverse err [] = (stderr', Returns res) ->
      Forall boolean_severity res) /\
  gal_error_reverse err [] = ([], Returns (rev (map normalised err))) /\
  map is_warning (rev (map normalised err))
    = map (fun r => is_warning r mod 2) (rev err).
Proof.
  intros err.
  assert (Hlen : (2 <= List.length err)%nat) by (cbn; lia).
  assert (Hwf : Forall well_formed err).
  { repeat constructor; cbn; lia. }
  destruct (gal_error_reverse_boolean_severity err [] Hlen) as [Hany Hret].
  split; [exact Hlen | split; [exact Hwf | split; [exact Hany |]]].
  exact (Hret Hwf).
Defined.

(** ** Presentation and the boundary guard *)

Section PresenterProperties.

Variable PACKAGE_BUGREPORT : string.

Lemma fmt_d_uint8 (c : Z) : 0 <= c <= 255 -> fmt_d c = decimal_uint8 c.
Proof.
  intros Hc.
  assert (Hall : forallb (fun n => (fmt_d n =? decimal_uint8 n)%string)
                   (map Z.of_nat (seq 0 256)) = true)
    by (vm_compute; reflexivity).
  rewrite forallb_forall in Hall.
  apply String.eqb_eq, Hall.
  replace c with (Z.of_nat (Z.to_nat c)) by lia.
  apply in_map, in_seq. lia.
Qed.

Lemma gal_error_print_lib_name_default (l : Z) :
  l <= 0 \/ 42 <= l ->
  gal_error_print_lib_name PACKAGE_BUGREPORT l
    = ("NOT-DEFINED! A bug! Please contact us at "
         ++ PACKAGE_BUGREPORT)%string.
Proof.
  intros Hout. unfold gal_error_print_lib_name.
  destruct (find _ gal_error_print_lib_name_cases) as [[k name] |] eqn:E;
    [| reflexivity].
  exfalso. apply find_some in E. destruct E as [Hin Hk].
  cbn [fst] in Hk. apply Z.eqb_eq in Hk. subst k.
  cbn in Hin.
  repeat (destruct Hin as [Hin | Hin];
          [injection Hin as Hl _; vm_compute in Hl; lia |]).
  exact Hin.
Qed.

(** C9: with a front message [gal_error_to_string] returns
    "front: library: code: back STATUS", without one
    "library: code: back STATUS".  The code, a [uint8_t], is written as
    its decimal numeral.  STATUS is [[BREAKING]] exactly when [is_warning]
    is 0 and [[WARNING]] otherwise.  The library is the header name of the
    library code, as listed here for the codes 1 to 41, and the request to
    report a bug for every other code.  The record pushed with "division
    by zero" and the identifier of (3, 5, 0), then given the front message
    "compute_ratio", renders as "compute_ratio: ", the name of library 3,
    ": 5: division by zero [BREAKING]"; library 3 is binary.h. *)
Theorem gal_error_to_string_format (c l t w verbose : Z)
    (back front : string) (stderr : stream) :
  0 <= c <= 255 ->
  (exists STATUS : string,
      (STATUS = "[BREAKING]"%string <-> w = 0) /\
      (STATUS = "[WARNING]"%string <-> w <> 0) /\
      gal_error_to_string PACKAGE_BUGREPORT
        (mk_gal_error_t c l t w (Some back) (Some front)) verbose
        = (front ++ ": " ++ gal_error_print_lib_name PACKAGE_BUGREPORT l
             ++ ": " ++ decimal_uint8 c ++ ": " ++ back ++ " "
             ++ STATUS)%string /\
      gal_error_to_string PACKAGE_BUGREPORT
        (mk_gal_error_t c l t w (Some back) None) verbose
        = (gal_error_print_lib_name PACKAGE_BUGREPORT l
             ++ ": " ++ decimal_uint8 c ++ ": " ++ back ++ " "
             ++ STATUS)%string) /\
  map (gal_error_print_lib_name PACKAGE_BUGREPORT)
    [1; 2; 3; 4; 5; 6; 7; 8; 9; 10; 11; 12; 13; 14; 15; 16; 17; 18; 19; 20;
     21; 22; 23; 24; 25; 26; 27; 28; 29; 30; 31; 32; 33; 34; 35; 36; 37; 38;
     39; 40; 41]
  = [ "arithmetic.h"; "array.h"; "binary.h"; "blank.h"; "box.h"; "color.h";
      "convolve.h"; "cosmology.h"; "data.h"; "dimension.h"; "ds9.h";
      "eps.h"; "error.h"; "errorinprogram.h"; "fit.h"; "fits.h"; "git.h";
      "interpolate.h"; "jpeg.h"; "kdtree.h"; "label.h"; "list.h";
      "match.h"; "pdf.h"; "permutation.h"; "pointer.h"; "polygon.h";
      "pool.h"; "python.h"; "qsort.h"; "speclines.h"; "statistics.h";
      "table.h"; "threads.h"; "tiff.h"; "tile.h"; "txt.h"; "type.h";
      "units.h"; "warp.h"; "wcs.h" ]%string /\
  (forall other : Z,
      other <= 0 \/ 42 <= other ->
      gal_error_print_lib_name PACKAGE_BUGREPORT other
        = ("NOT-DEFINED! A bug! Please contact us at "
             ++ PACKAGE_BUGREPORT)%string) /\
  map decimal_uint8 [0; 7; 10; 42; 99; 100; 205; 255]
  = [ "0"; "7"; "10"; "42"; "99"; "100"; "205"; "255" ]%string /\
  (e <- gal_error_add_front_msg
          (gal_error_add_back_msg [] (Some "division by zero"%string)
             (GAL_ERROR_BITSET 3 5 0))
          (Some "compute_ratio"%string) 0 ;;
   ret (map (fun head => gal_error_to_string PACKAGE_BUGREPORT head verbose)
          e)) stderr
    = (stderr,
       Returns [("compute_ratio: "
                   ++ gal_error_print_lib_name PACKAGE_BUGREPORT 3
                   ++ ": 5: division by zero [BREAKING]")%string]) /\
  gal_error_print_lib_name PACKAGE_BUGREPORT 3 = "binary.h"%string.
Proof.
  intros Hc.
  split; [| split; [reflexivity | split; [| split; [reflexivity |]]]].
  - exists (if w =? 0 then "[BREAKING]"%string else "[WARNING]"%string).
    unfold gal_error_to_string.
    cbn [is_warning front_msg back_msg code lib_code fmt_s].
    rewrite (fmt_d_uint8 c Hc).
    destruct (Z.eqb_spec w 0) as [E | E].
    + repeat split; auto; try discriminate; try contradiction.
    + repeat split; auto; try discriminate; try contradiction.
  - intros other Hother. now apply gal_error_print_lib_name_default.
  - split; reflexivity.
Qed.

(** The lines that [gal_error_to_stderr_all] writes when the string of
    every record is a format that needs no argument. *)
Lemma gal_error_to_stderr_all_loop_eq (head : gal_error_t) (tmperr : chain)
    (lines : list string) (verbose : Z) :
  Forall2
    (fun r line =>
       printf_no_args (gal_error_to_string PACKAGE_BUGREPORT r verbose)
       = Some line) tmperr lines ->
  forall (ncritical : Z) (stderr : stream),
    gal_error_to_stderr_all_loop PACKAGE_BUGREPORT head tmperr verbose
      ncritical stderr
    = (stderr ++ lines,
       Returns (if is_warning head =? 0
                then ncritical + Z.of_nat (List.length tmperr)
                else ncritical)).
Proof.
  induction 1 as [| node line next lines' Hline _ IH];
    intros ncritical stderr.
  - cbn. unfold ret. rewrite app_nil_r.
    destruct (is_warning head =? 0); do 2 f_equal; lia.
  - cbn [gal_error_to_stderr_all_loop]. unfold bind, error_no_args.
    rewrite Hline. unfold error. cbn [EXIT_SUCCESS Z.eqb]. rewrite IH.
    cbn [List.length]. rewrite <- app_assoc. cbn [app].
    destruct (is_warning head =? 0); do 2 f_equal; lia.
Qed.

(** What [gal_error_to_stderr_all] does on a chain that is not empty and
    whose strings need no argument as formats: one line per record, in the
    order of the chain, and a count that is the length of the chain when
    the head is not a warning and 0 when it is. *)
Lemma gal_error_to_stderr_all_eq (head : gal_error_t) (next : chain)
    (lines : list string) (verbose : Z) (stderr : stream) :
  Forall2
    (fun r line =>
       printf_no_args (gal_error_to_string PACKAGE_BUGREPORT r verbose)
       = Some line) (head :: next) lines ->
  gal_error_to_stderr_all PACKAGE_BUGREPORT (head :: next) verbose stderr
  = (stderr ++ lines,
     Returns (if is_warning head =? 0
              then Z.of_nat (List.length (head :: next))
              else 0)).
Proof.
  intros Hlines. unfold gal_error_to_stderr_all.
  rewrite (gal_error_to_stderr_all_loop_eq _ _ _ _ Hlines). reflexivity.
Qed.

(** C1: the count that [gal_error_to_stderr_all] returns follows the
    severity of the head alone.  On the chain of two critical records and
    one warning, the warning pushed first, it writes the three lines and
    returns 3, although two records have [is_warning] equal to 0; with the
    warning at the head it writes three lines and returns 0.  On the empty
    chain it returns 0 and writes nothing. *)
Theorem gal_error_to_stderr_all_two_critical_one_warning (verbose : Z)
    (stderr : stream) :
  let warning := pushed "low redshift" (GAL_ERROR_BITSET 8 1 1) None in
  let critical1 := pushed "negative density" (GAL_ERROR_BITSET 8 2 0) None in
  let critical2 := pushed "division by zero" (GAL_ERROR_BITSET 3 5 0) None in
  let err := [critical2; critical1; warning] in
  gal_error_add_back_msg
    (gal_error_add_back_msg
       (gal_error_add_back_msg [] (Some "low redshift"%string)
          (GAL_ERROR_BITSET 8 1 1))
       (Some "negative density"%string) (GAL_ERROR_BITSET 8 2 0))
    (Some "division by zero"%string) (GAL_ERROR_BITSET 3 5 0) = err /\
  List.length (filter (fun r => is_warning r =? 0) err) = 2%nat /\
  gal_error_to_stderr_all PACKAGE_BUGREPORT err verbose stderr
    = (stderr ++ [ "binary.h: 5: division by zero [BREAKING]"%string;
                   "cosmology.h: 2: negative density [BREAKING]"%string;
                   "cosmology.h: 1: low redshift [WARNING]"%string ],
       Returns 3) /\
  gal_error_to_stderr_all PACKAGE_BUGREPORT (rev err) verbose stderr
    = (stderr ++ [ "cosmology.h: 1: low redshift [WARNING]"%string;
                   "cosmology.h: 2: negative density [BREAKING]"%string;
                   "binary.h: 5: division by zero [BREAKING]"%string ],
       Returns 0) /\
  gal_error_to_stderr_all PACKAGE_BUGREPORT [] verbose stderr
    = (stderr, Returns 0).
Proof.
  intros warning critical1 critical2 err.
  split; [reflexivity | split; [reflexivity |]].
  split; [| split; [| reflexivity]].
  - unfold err.
    rewrite (gal_error_to_stderr_all_eq _ _
               [ "binary.h: 5: division by zero [BREAKING]"%string;
                 "cosmology.h: 2: negative density [BREAKING]"%string;
                 "cosmology.h: 1: low redshift [WARNING]"%string ]).
    + reflexivity.
    + repeat (apply Forall2_cons; [reflexivity |]). apply Forall2_nil.
  - unfold err. cbn [rev app].
    rewrite (gal_error_to_stderr_all_eq _ _
               [ "cosmology.h: 1: low redshift [WARNING]"%string;
                 "cosmology.h: 2: negative density [BREAKING]"%string;
                 "binary.h: 5: division by zero [BREAKING]"%string ]).
    + reflexivity.
    + repeat (apply Forall2_cons; [reflexivity |]). apply Forall2_nil.
Qed.




End PresenterProperties.

Lemma gal_error_to_string_format_witness :
  (exists STATUS : string,
      (STATUS = "[BREAKING]"%string <-> 1 = 0) /\
      (STATUS = "[WARNING]"%string <-> 1 <> 0) /\
      gal_error_to_string "bug-gnuastro@gnu.org"
        (mk_gal_error_t 205 8 0 1 (Some "low redshift"%string)
           (Some "cosmiccal"%string)) 0
        = ("cosmiccal" ++ ": "
             ++ gal_error_print_lib_name "bug-gnuastro@gnu.org" 8
             ++ ": " ++ decimal_uint8 205 ++ ": " ++ "low redshift" ++ " "
             ++ STATUS)%string /\
      gal_error_to_string "bug-gnuastro@gnu.org"
        (mk_gal_error_t 205 8 0 1 (Some "low redshift"%string) None) 0
        = (gal_error_print_lib_name "bug-gnuastro@gnu.org" 8
             ++ ": " ++ decimal_uint8 205 ++ ": " ++ "low redshift" ++ " "
             ++ STATUS)%string) /\
  map (gal_error_print_lib_name "bug-gnuastro@gnu.org")
    [1; 2; 3; 4; 5; 6; 7; 8; 9; 10; 11; 12; 13; 14; 15; 16; 17; 18; 19; 20;
     21; 22; 23; 24; 25; 26; 27; 28; 29; 30; 31; 32; 33; 34; 35; 36; 37; 38;
     39; 40; 41]
  = [ "arithmetic.h"; "array.h"; "binary.h"; "blank.h"; "box.h"; "color.h";
      "convolve.h"; "cosmology.h"; "data.h"; "dimension.h"; "ds9.h";
      "eps.h"; "error.h"; "errorinprogram.h"; "fit.h"; "fits.h"; "git.h";
      "interpolate.h"; "jpeg.h"; "kdtree.h"; "label.h"; "list.h";
      "match.h"; "pdf.h"; "permutation.h"; "pointer.h"; "polygon.h";
      "pool.h"; "python.h"; "qsort.h"; "speclines.h"; "statistics.h";
      "table.h"; "threads.h"; "tiff.h"; "tile.h"; "txt.h"; "type.h";
      "units.h"; "warp.h"; "wcs.h" ]%string /\
  (forall other : Z,
      other <= 0 \/ 42 <= other ->
      gal_error_print_lib_name "bug-gnuastro@gnu.org" other
        = ("NOT-DEFINED! A bug! Please contact us at "
             ++ "bug-gnuastro@gnu.org")%string) /\
  map decimal_uint8 [0; 7; 10; 42; 99; 100; 205; 255]
  = [ "0"; "7"; "10"; "42"; "99"; "100"; "205"; "255" ]%string /\
  (e <- gal_error_add_front_msg
          (gal_error_add_back_msg [] (Some "division by zero"%string)
             (GAL_ERROR_BITSET 3 5 0))
          (Some "compute_ratio"%string) 0 ;;
   ret (map (fun head => gal_error_to_string "bug-gnuastro@gnu.org" head 0)
          e)) []
    = ([],
       Returns [("compute_ratio: "
                   ++ gal_error_print_lib_name "bug-gnuastro@gnu.org" 3
                   ++ ": 5: division by zero [BREAKING]")%string]) /\
  gal_error_print_lib_name "bug-gnuastro@gnu.org" 3 = "binary.h"%string.
Proof.
  apply (gal_error_to_string_format "bug-gnuastro@gnu.org" 205 8 0 1 0
           "low redshift" "cosmiccal" []).
  lia.
Defined.


(** * Further properties of [lib/error.c] *)

(** ** The codec *)

Lemma byte_at_mod_pow2 (v lo n : Z) :
  0 <= lo -> lo + 8 <= n -> byte_at (v mod 2 ^ n) lo = byte_at v lo.
Proof.
  intros Hlo Hhi. unfold byte_at.
  rewrite <- (Z.land_ones v n) by lia.
  change 255 with (Z.ones 8).
  apply Z.bits_inj'; intros i Hi.
  rewrite !Z.land_spec, !Z.shiftr_spec, Z.land_spec by lia.
  destruct (Z.ltb_spec i 8) as [Hlt | Hge].
  - rewrite (Z.ones_spec_low n (i + lo)) by lia. now rewrite andb_true_r.
  - rewrite (Z.ones_spec_high 8 i) by lia. now rewrite !andb_false_r.
Qed.

Lemma odd_mod_pow2 (v n : Z) : 0 < n -> Z.odd (v mod 2 ^ n) = Z.odd v.
Proof.
  intros Hn. rewrite <- !Z.bit0_odd.
  apply Z.mod_pow2_bits_low. lia.
Qed.

Lemma byte_at_div_mod (v lo : Z) :
  0 <= lo -> byte_at v lo = (v / 2 ^ lo) mod 256.
Proof.
  intros Hlo. unfold byte_at. change 255 with (Z.ones 8).
  rewrite Z.land_ones, Z.shiftr_div_pow2 by lia. reflexivity.
Qed.

(** The three values that [gal_error_bits_extract] returns always fit
    their [uint8_t] fields, the severity being 0 or 1, and they depend on
    the low 24 bits of the identifier only: bits 24-31 are ignored. *)
Theorem gal_error_bits_extract_low_24_bits (bitstring : Z) :
  (exists l c w : Z,
      gal_error_bits_extract bitstring = (l, c, w) /\
      0 <= l <= 255 /\ 0 <= c <= 255 /\ (w = 0 \/ w = 1)) /\
  gal_error_bits_extract (bitstring mod 2 ^ 24)
    = gal_error_bits_extract bitstring.
Proof.
  split.
  - rewrite gal_error_bits_extract_eq.
    pose proof (byte_at_range bitstring 16).
    pose proof (byte_at_range bitstring 8).
    do 3 eexists. split; [reflexivity |].
    destruct (Z.odd bitstring); repeat split; lia.
  - rewrite !gal_error_bits_extract_eq.
    rewrite !byte_at_mod_pow2, odd_mod_pow2 by lia. reflexivity.
Qed.

(** Encoding what was decoded gives the identifier back exactly when the
    identifier is a 24-bit value whose low byte is 0 or 1. *)
Theorem GAL_ERROR_BITSET_of_extract (bitstring : Z) :
  (let '(l, c, w) := gal_error_bits_extract bitstring in
   GAL_ERROR_BITSET l c w = bitstring)
  <-> 0 <= bitstring < 2 ^ 24 /\ bitstring mod 256 <= 1.
Proof.
  rewrite gal_error_bits_extract_eq.
  pose proof (byte_at_range bitstring 16) as Hl.
  pose proof (byte_at_range bitstring 8) as Hc.
  assert (Hw : 0 <= (if Z.odd bitstring then 1 else 0) < 256)
    by (destruct (Z.odd bitstring); lia).
  rewrite GAL_ERROR_BITSET_sum by assumption.
  rewrite !byte_at_div_mod in * by lia.
  change (2 ^ 16) with 65536 in *. change (2 ^ 8) with 256 in *.
  change (2 ^ 24) with 16777216.
  pose proof (Zmod_odd bitstring) as Hodd.
  destruct (Z.odd bitstring); Z.div_mod_to_equations; lia.
Qed.

(** Two triples of in-range fields have the same identifier only when they
    are the same triple. *)
Theorem GAL_ERROR_BITSET_injective (l c w l' c' w' : Z) :
  0 <= l <= 255 -> 0 <= c <= 255 -> 0 <= w <= 255 ->
  0 <= l' <= 255 -> 0 <= c' <= 255 -> 0 <= w' <= 255 ->
  GAL_ERROR_BITSET l c w = GAL_ERROR_BITSET l' c' w' <->
  l = l' /\ c = c' /\ w = w'.
Proof.
  intros Hl Hc Hw Hl' Hc' Hw'.
  rewrite !GAL_ERROR_BITSET_sum by lia.
  split; [intros H; lia | intros (-> & -> & ->); reflexivity].
Qed.

Lemma GAL_ERROR_BITSET_injective_witness :
  GAL_ERROR_BITSET 8 2 0 = GAL_ERROR_BITSET 8 2 1 <->
  8 = 8 /\ 2 = 2 /\ 0 = 1.
Proof.
  apply (GAL_ERROR_BITSET_injective 8 2 0 8 2 1); lia.
Defined.

(** ** The chain *)

(** [gal_error_occurred] looks at the head only: it returns 1 exactly when
    the chain has a head that is not a warning, whatever lies below, and
    right after a push it is decided by the parity of the identifier that
    was pushed. *)
Theorem gal_error_occurred_head_only (err : chain) (message : string)
    (bitstring : Z) :
  (gal_error_occurred err = 1
   <-> exists head next, err = head :: next /\ is_warning head = 0) /\
  (gal_error_occurred err = 0 \/ gal_error_occurred err = 1) /\
  gal_error_occurred (gal_error_add_back_msg err (Some message) bitstring)
    = (if Z.odd bitstring then 0 else 1).
Proof.
  split; [| split].
  - destruct err as [| head next]; cbn.
    + split; [discriminate | intros (h & n & E & _); discriminate E].
    + destruct (Z.eqb_spec (is_warning head) 0) as [E | E].
      * split; [intros _; now exists head, next | reflexivity].
      * split; [discriminate |].
        intros (h & n & Ecs & Hw). injection Ecs as <- <-. contradiction.
  - destruct err as [| head next]; cbn; [now left |].
    destruct (is_warning head =? 0); [now right | now left].
  - rewrite gal_error_add_back_msg_pushed. cbn.
    destruct (Z.odd bitstring); reflexivity.
Qed.

Lemma gal_error_check_eq (err : chain) (bitstring : Z) :
  gal_error_check err bitstring
    = if existsb (fun tmperr => code tmperr =? byte_at bitstring 8) err
      then 1 else 0.
Proof.
  unfold gal_error_check. now rewrite gal_error_bits_extract_eq.
Qed.

(** Pushing and checking: the empty chain holds no error; the identifier
    that was just pushed is found; any other identifier is found after the
    push exactly when it shares bits 8-15 with the pushed one or was found
    before. *)
Theorem gal_error_check_after_push (err : chain) (message : string)
    (bitstring other : Z) :
  gal_error_check [] other = 0 /\
  gal_error_check (gal_error_add_back_msg err (Some message) bitstring)
    bitstring = 1 /\
  gal_error_check (gal_error_add_back_msg err (Some message) bitstring) other
    = (if byte_at bitstring 8 =? byte_at other 8 then 1
       else gal_error_check err other).
Proof.
  rewrite !gal_error_check_eq, gal_error_add_back_msg_pushed.
  cbn [existsb pushed code].
  rewrite Z.eqb_refl. cbn [orb].
  split; [reflexivity | split; [reflexivity |]].
  destruct (byte_at bitstring 8 =? byte_at other 8); reflexivity.
Qed.

(** Whenever [gal_error_add_front_msg] returns, it has written nothing, the
    chain has the length and the tail it had, and the head differs from the
    old one in its front message at most. *)
Theorem gal_error_add_front_msg_frame (err err' : chain)
    (msg : option string) (replace : Z) (stderr stderr' : stream) :
  gal_error_add_front_msg err msg replace stderr = (stderr', Returns err') ->
  stderr' = stderr /\
  List.length err' = List.length err /\
  tl err' = tl err /\
  map code err' = map code err /\
  map lib_code err' = map lib_code err /\
  map type err' = map type err /\
  map is_warning err' = map is_warning err /\
  map back_msg err' = map back_msg err.
Proof.
  unfold gal_error_add_front_msg.
  destruct err as [| top next].
  - intros H. injection H as <- <-. repeat split.
  - destruct msg as [m |].
    + destruct (is_set (front_msg top) && (uint8 replace =? 0)).
      * unfold bind, error, EXIT_FAILURE. cbn. discriminate.
      * intros H. injection H as <- <-. repeat split.
    + intros H. injection H as <- <-. repeat split.
Qed.

Lemma gal_error_add_front_msg_frame_witness :
  let err := [pushed "division by zero" (GAL_ERROR_BITSET 3 5 0) None;
              pushed "low redshift" (GAL_ERROR_BITSET 8 1 1) None] in
  let err' :=
    [pushed "division by zero" (GAL_ERROR_BITSET 3 5 0)
       (Some "compute_ratio"%string);
     pushed "low redshift" (GAL_ERROR_BITSET 8 1 1) None] in
  @nil string = [] /\
  List.length err' = List.length err /\
  tl err' = tl err /\
  map code err' = map code err /\
  map lib_code err' = map lib_code err /\
  map type err' = map type err /\
  map is_warning err' = map is_warning err /\
  map back_msg err' = map back_msg err.
Proof.
  apply (gal_error_add_front_msg_frame
           [pushed "division by zero" (GAL_ERROR_BITSET 3 5 0) None;
            pushed "low redshift" (GAL_ERROR_BITSET 8 1 1) None]
           [pushed "division by zero" (GAL_ERROR_BITSET 3 5 0)
              (Some "compute_ratio"%string);
            pushed "low redshift" (GAL_ERROR_BITSET 8 1 1) None]
           (Some "compute_ratio"%string) 0 [] []).
  reflexivity.
Defined.

(** [gal_error_add_front_msg] terminates the process in one case only: a
    message is given, the head already has a front message, and the replace
    flag is 0 as a [uint8_t]; the status is then [EXIT_FAILURE] and exactly
    one line has been written. *)
Theorem gal_error_add_front_msg_exits_iff (err : chain) (msg : option string)
    (replace : Z) (stderr : stream) :
  ((exists stderr' status,
       gal_error_add_front_msg err msg replace stderr
         = (stderr', Exits status))
   <-> (exists top next old new,
          err = top :: next /\ front_msg top = Some old /\
          msg = Some new /\ uint8 replace = 0)) /\
  (forall stderr' status,
      gal_error_add_front_msg err msg replace stderr
        = (stderr', Exits status) ->
      status = EXIT_FAILURE /\
      exists complaint : string, stderr' = stderr ++ [complaint]).
Proof.
  unfold gal_error_add_front_msg.
  destruct err as [| top next].
  - split.
    + split; [intros (s & st & H); discriminate H |].
      intros (t & n & o & m & E & _); discriminate E.
    + intros s st H. discriminate H.
  - destruct msg as [m |].
    + destruct (front_msg top) as [old |] eqn:Efront; cbn [is_set andb].
      * destruct (Z.eqb_spec (uint8 replace) 0) as [E | E].
        -- unfold bind, error, EXIT_FAILURE. cbn [Z.eqb]. split.
           ++ split; [| intros _; eauto].
              intros _. exists top, next, old, m. repeat split; assumption.
           ++ intros s st H. injection H as <- <-. split; [reflexivity |].
              eexists. reflexivity.
        -- split.
           ++ split; [intros (s & st & H); discriminate H |].
              intros (t & n & o & m' & _ & _ & _ & H). contradiction.
           ++ intros s st H. discriminate H.
      * split.
        -- split; [intros (s & st & H); discriminate H |].
           intros (t & n & o & m' & Ecs & Hf & _).
           injection Ecs as <- <-. rewrite Efront in Hf. discriminate Hf.
        -- intros s st H. discriminate H.
    + split.
      * split; [intros (s & st & H); discriminate H |].
        intros (t & n & o & m' & _ & _ & H & _). discriminate H.
      * intros s st H. discriminate H.
Qed.

(** ** [gal_error] and [gal_error_exists_leave_func] *)

Lemma odd_GAL_ERROR_BITSET (l c w : Z) :
  Z.odd (GAL_ERROR_BITSET l c w) = Z.odd w.
Proof.
  unfold GAL_ERROR_BITSET. rewrite <- !Z.bit0_odd.
  rewrite !Z.lor_spec, !Z.shiftl_spec_low by lia. reflexivity.
Qed.

Lemma gal_error_eq (err : chain) (l c w : Z) (errstr : option string) :
  gal_error err l c w errstr
    = pushed
        (match errstr with
         | Some s => s
         | None => "gal_error: can not use 'vasprintf'"%string
         end)
        (uint32 (GAL_ERROR_BITSET l c w)) None :: err.
Proof.
  unfold gal_error.
  destruct errstr as [s |]; apply gal_error_add_back_msg_pushed.
Qed.

Lemma as_allocated_pushed (message : string) (bitstring : Z)
    (front : option string) :
  as_allocated (pushed message bitstring front).
Proof.
  split; [apply well_formed_pushed | split; [| reflexivity]].
  unfold boolean_severity, pushed; cbn.
  destruct (Z.odd bitstring); lia.
Qed.

(** [gal_error] always puts exactly one record on the chain, above the
    records that were there, whatever its integer arguments are and whether
    or not the message could be formatted; the severity of that record is
    the parity of the [is_warning] argument, it has a back message, which
    is the formatted text when there is one, and it has no front
    message. *)
Theorem gal_error_pushes_one (err : chain) (l c w : Z)
    (errstr : option string) :
  exists r : gal_error_t,
    gal_error err l c w errstr = r :: err /\
    is_warning r = (if Z.odd w then 1 else 0) /\
    match errstr with
    | Some s => back_msg r = Some s
    | None => is_set (back_msg r) = true
    end /\
    front_msg r = None /\
    0 <= lib_code r <= 255 /\ 0 <= code r <= 255.
Proof.
  rewrite gal_error_eq. eexists. split; [reflexivity |].
  cbn [pushed is_warning back_msg front_msg lib_code code].
  unfold uint32. rewrite odd_mod_pow2, odd_GAL_ERROR_BITSET by lia.
  pose proof (byte_at_range (GAL_ERROR_BITSET l c w mod 2 ^ 32) 16).
  pose proof (byte_at_range (GAL_ERROR_BITSET l c w mod 2 ^ 32) 8).
  destruct errstr; repeat split; lia.
Qed.

(** With a library code, an error code and a severity that fit 8 bits,
    the record that [gal_error] pushes carries the library code and the
    error code as given and the parity of the severity. *)
Theorem gal_error_in_range (err : chain) (l c w : Z) (message : string) :
  0 <= l <= 255 -> 0 <= c <= 255 -> 0 <= w <= 255 ->
  gal_error err l c w (Some message)
    = {| code := c;
         lib_code := l;
         type := 0;
         is_warning := w mod 2;
         back_msg := Some message;
         front_msg := None |} :: err.
Proof.
  intros Hl Hc Hw.
  unfold gal_error, gal_error_add_back_msg, uint32.
  rewrite GAL_ERROR_BITSET_sum by lia.
  rewrite Z.mod_small by lia.
  rewrite gal_error_bits_extract_sum by lia.
  unfold gal_error_allocate, gal_checkset_allocate_copy.
  rewrite !uint8_small by (try lia; pose proof (Z.mod_pos_bound w 2); lia).
  reflexivity.
Qed.

Lemma gal_error_in_range_witness :
  gal_error [] 8 2 3 (Some "negative density"%string)
    = [ {| code := 2;
           lib_code := 8;
           type := 0;
           is_warning := 3 mod 2;
           back_msg := Some "negative density"%string;
           front_msg := None |} ].
Proof.
  apply (gal_error_in_range [] 8 2 3 "negative density"); lia.
Defined.

(** [gal_error_exists_leave_func] returns 0 and leaves the chain empty when
    it is empty; on any other chain it returns 1 and adds one record on top
    of the records that were there, with the message "FUNC: error point is
    not empty, will not continue", after which [gal_error_occurred] follows
    the parity of the [is_warning] argument. *)
Theorem gal_error_exists_leave_func_spec (l c w : Z) (func : option string) :
  gal_error_exists_leave_func [] l c w func = ([], 0) /\
  forall (head : gal_error_t) (next : chain),
    exists r : gal_error_t,
      gal_error_exists_leave_func (head :: next) l c w func
        = (r :: head :: next, 1) /\
      back_msg r
        = Some (fmt_s func
                  ++ ": error point is not empty, will not continue")%string /\
      front_msg r = None /\
      gal_error_occurred (r :: head :: next) = (if Z.odd w then 0 else 1).
Proof.
  split; [reflexivity |].
  intros head next. unfold gal_error_exists_leave_func.
  rewrite gal_error_eq. eexists. split; [reflexivity |].
  cbn [pushed back_msg front_msg gal_error_occurred is_warning].
  unfold uint32. rewrite odd_mod_pow2, odd_GAL_ERROR_BITSET by lia.
  repeat split. destruct (Z.odd w); reflexivity.
Qed.

(** ** What the chain functions keep *)

Lemma as_allocated_set_front_msg (r : gal_error_t) (msg : option string) :
  as_allocated r -> as_allocated (set_front_msg r msg).
Proof.
  intros ((Hc & Hl & Hw & Hb) & Hbool & Ht).
  repeat split; cbn; try lia; assumption.
Qed.

Lemma gal_error_add_front_msg_returns (err err' : chain)
    (msg : option string) (replace : Z) (stderr stderr' : stream) :
  gal_error_add_front_msg err msg replace stderr = (stderr', Returns err') ->
  stderr' = stderr /\
  (err' = err \/
   exists top next, err = top :: next /\ err' = set_front_msg top msg :: next).
Proof.
  unfold gal_error_add_front_msg.
  destruct err as [| top next].
  - intros H. injection H as <- <-. auto.
  - destruct msg as [m |].
    + destruct (is_set (front_msg top) && (uint8 replace =? 0)).
      * unfold bind, error, EXIT_FAILURE. cbn. discriminate.
      * intros H. injection H as <- <-. split; [reflexivity |].
        right. now exists top, next.
    + intros H. injection H as <- <-. auto.
Qed.

Lemma normalised_as_allocated (r : gal_error_t) :
  as_allocated r -> normalised r = r.
Proof.
  intros (_ & Hbool & Ht). destruct r as [c l t w b f].
  unfold boolean_severity in Hbool. cbn in *. subst t.
  unfold normalised; cbn. destruct Hbool as [-> | ->]; reflexivity.
Qed.

Lemma map_normalised_as_allocated (err : chain) :
  Forall as_allocated err -> map normalised err = err.
Proof.
  induction 1 as [| r rest Hr _ IH]; cbn; [reflexivity |].
  now rewrite normalised_as_allocated, IH.
Qed.

Lemma Forall_as_allocated_well_formed (err : chain) :
  Forall as_allocated err -> Forall well_formed err.
Proof.
  apply Forall_impl. intros r (H & _). exact H.
Qed.

Lemma gal_error_reverse_as_allocated (err : chain) (stderr : stream) :
  Forall as_allocated err ->
  gal_error_reverse err stderr = (stderr, Returns (rev err)).
Proof.
  intros Hall.
  destruct err as [| r1 [| r2 rest]]; [reflexivity | reflexivity |].
  unfold gal_error_reverse.
  rewrite gal_error_reverse_loop_well_formed
    by (apply Forall_as_allocated_well_formed; exact Hall).
  rewrite app_nil_r, map_normalised_as_allocated by exact Hall.
  reflexivity.
Qed.

(** Records that came from [gal_error_add_back_msg] stay such records: on a
    chain all of whose records have [uint8_t] fields, a severity of 0 or 1,
    a zero [type] and a back message, every function that changes the chain
    returns a chain of such records again, and [gal_error_reverse] does
    return. *)
Theorem as_allocated_preserved (err : chain) (msg front : option string)
    (bitstring l c w replace : Z) (errstr func : option string)
    (stderr : stream) :
  Forall as_allocated err ->
  Forall as_allocated (gal_error_add_back_msg err msg bitstring) /\
  Forall as_allocated (gal_error err l c w errstr) /\
  Forall as_allocated (fst (gal_error_exists_leave_func err l c w func)) /\
  (forall (stderr' : stream) (err' : chain),
      gal_error_add_front_msg err front replace stderr
        = (stderr', Returns err') ->
      Forall as_allocated err') /\
  (exists err' : chain,
      gal_error_reverse err stderr = (stderr, Returns err') /\
      Forall as_allocated err').
Proof.
  intros Hall.
  split; [| split; [| split; [| split]]].
  - destruct msg as [m |]; [| exact Hall].
    rewrite gal_error_add_back_msg_pushed.
    constructor; [apply as_allocated_pushed | exact Hall].
  - rewrite gal_error_eq.
    constructor; [apply as_allocated_pushed | exact Hall].
  - unfold gal_error_exists_leave_func.
    destruct err as [| head next]; [constructor |].
    cbn [fst]. rewrite gal_error_eq.
    constructor; [apply as_allocated_pushed | exact Hall].
  - intros stderr' err' Hrun.
    apply gal_error_add_front_msg_returns in Hrun.
    destruct Hrun as (_ & [-> | (top & next & -> & ->)]); [exact Hall |].
    inversion Hall as [| ? ? Htop Hnext]; subst.
    constructor; [now apply as_allocated_set_front_msg | exact Hnext].
  - exists (rev err). split.
    + now apply gal_error_reverse_as_allocated.
    + now apply Forall_rev.
Qed.

Lemma as_allocated_preserved_witness :
  let err := [pushed "division by zero" (GAL_ERROR_BITSET 3 5 0)
                (Some "compute_ratio"%string);
              pushed "low redshift" (GAL_ERROR_BITSET 8 1 1) None] in
  Forall as_allocated err /\
  Forall as_allocated
    (gal_error_add_back_msg err (Some "overflow"%string) 66049) /\
  Forall as_allocated (gal_error err 300 2 7 None) /\
  Forall as_allocated
    (fst (gal_error_exists_leave_func err 300 2 7
            (Some "gal_cosmology_age"%string))) /\
  (forall (stderr' : stream) (err' : chain),
      gal_error_add_front_msg err (Some "main"%string) 1 []
        = (stderr', Returns err') ->
      Forall as_allocated err') /\
  (exists err' : chain,
      gal_error_reverse err [] = ([], Returns err') /\
      Forall as_allocated err').
Proof.
  intros err.
  assert (Hall : Forall as_allocated err).
  { apply Forall_cons; [apply as_allocated_pushed |].
    apply Forall_cons; [apply as_allocated_pushed | apply Forall_nil]. }
  split; [exact Hall |].
  exact (as_allocated_preserved err (Some "overflow"%string)
           (Some "main"%string) 66049 300 2 7 1 None
           (Some "gal_cosmology_age"%string) [] Hall).
Defined.

(** ** Reversal, beyond three records *)

(** On a chain of records that came from [gal_error_add_back_msg], of any
    length, [gal_error_reverse] writes nothing, does not terminate the
    process and returns the records unchanged in the opposite order; done
    twice it gives the chain back. *)
Theorem gal_error_reverse_is_rev (err : chain) (stderr : stream) :
  Forall as_allocated err ->
  gal_error_reverse err stderr = (stderr, Returns (rev err)) /\
  (e <- gal_error_reverse err ;; gal_error_reverse e) stderr
    = (stderr, Returns err).
Proof.
  intros Hall.
  assert (Hrev : gal_error_reverse err stderr = (stderr, Returns (rev err)))
    by now apply gal_error_reverse_as_allocated.
  split; [exact Hrev |].
  unfold bind. rewrite Hrev.
  rewrite gal_error_reverse_as_allocated by now apply Forall_rev.
  now rewrite rev_involutive.
Qed.

Lemma gal_error_reverse_is_rev_witness :
  let A := pushed "low redshift" (GAL_ERROR_BITSET 8 1 1) None in
  let B := pushed "negative density" (GAL_ERROR_BITSET 8 2 0)
             (Some "gal_cosmology_age"%string) in
  let C := pushed "division by zero" (GAL_ERROR_BITSET 3 5 0) None in
  let D := pushed "overflow" (GAL_ERROR_BITSET 1 9 0) None in
  Forall as_allocated [D; C; B; A] /\
  gal_error_reverse [D; C; B; A] [] = ([], Returns (rev [D; C; B; A])) /\
  (e <- gal_error_reverse [D; C; B; A] ;; gal_error_reverse e) []
    = ([], Returns [D; C; B; A]).
Proof.
  intros A B C D.
  assert (Hall : Forall as_allocated [D; C; B; A]).
  { repeat (apply Forall_cons; [apply as_allocated_pushed |]).
    apply Forall_nil. }
  split; [exact Hall |].
  exact (gal_error_reverse_is_rev [D; C; B; A] [] Hall).
Defined.

Lemma existsb_code_rev_normalised (err : chain) (c : Z) :
  existsb (fun tmperr => code tmperr =? c) (rev (map normalised err))
    = existsb (fun tmperr => code tmperr =? c) err.
Proof.
  apply eq_true_iff_eq. rewrite !existsb_code. split.
  - intros (r & Hin & Hc). apply in_rev, in_map_iff in Hin.
    destruct Hin as (r0 & <- & Hin0). now exists r0.
  - intros (r & Hin & Hc). exists (normalised r). split; [| exact Hc].
    apply in_rev. rewrite rev_involutive. now apply in_map.
Qed.

(** On a chain of well-formed records [gal_error_reverse] returns a chain
    of the same length in which [gal_error_check] finds exactly the
    identifiers it found before. *)
Theorem gal_error_check_reverse (err : chain) (stderr : stream) :
  Forall well_formed err ->
  exists err' : chain,
    gal_error_reverse err stderr = (stderr, Returns err') /\
    List.length err' = List.length err /\
    forall bitstring : Z,
      gal_error_check err' bitstring = gal_error_check err bitstring.
Proof.
  intros Hwf.
  destruct err as [| r1 [| r2 rest]].
  - exists []. repeat split.
  - exists [r1]. repeat split.
  - exists (rev (map normalised (r1 :: r2 :: rest))). split; [| split].
    + unfold gal_error_reverse.
      rewrite gal_error_reverse_loop_well_formed by exact Hwf.
      now rewrite app_nil_r.
    + now rewrite length_rev, length_map.
    + intros bitstring. rewrite !gal_error_check_eq.
      now rewrite existsb_code_rev_normalised.
Qed.

Lemma gal_error_check_reverse_witness :
  let err := [ mk_gal_error_t 5 3 0 2 (Some "overflow"%string) None;
               mk_gal_error_t 7 1 0 255 (Some "underflow"%string)
                 (Some "caller"%string) ] in
  Forall well_formed err /\
  exists err' : chain,
    gal_error_reverse err [] = ([], Returns err') /\
    List.length err' = List.length err /\
    forall bitstring : Z,
      gal_error_check err' bitstring = gal_error_check err bitstring.
Proof.
  intros err.
  assert (Hwf : Forall well_formed err).
  { repeat constructor; cbn; lia. }
  split; [exact Hwf |].
  exact (gal_error_check_reverse err [] Hwf).
Defined.


(** ** Reversal of records without a back message *)

Lemma gal_error_reverse_loop_back_msg (err : chain) :
  forall (acc : chain) (stderr stderr' : stream) (res : chain),
    gal_error_reverse_loop err acc stderr = (stderr', Returns res) ->
    stderr' = stderr /\
    map back_msg res
      = rev (filter is_set (map back_msg err)) ++ map back_msg acc.
Proof.
  induction err as [| top next IH]; intros acc stderr stderr' res Hrun.
  - cbn in Hrun. injection Hrun as <- <-. split; reflexivity.
  - cbn [gal_error_reverse_loop] in Hrun.
    set (bitstring := uint32 (Z.lor _ (is_warning top))) in Hrun.
    unfold bind in Hrun.
    destruct (gal_error_add_front_msg _ (front_msg top) 0 stderr)
      as [stderr1 [acc1 | status |]] eqn:Efront;
      [| discriminate Hrun | discriminate Hrun].
    apply gal_error_add_front_msg_returns in Efront.
    destruct Efront as (-> & Hacc1).
    apply IH in Hrun. destruct Hrun as (-> & Hres).
    split; [reflexivity |].
    assert (Hback : map back_msg acc1
              = map back_msg
                  (gal_error_add_back_msg acc (back_msg top) bitstring)).
    { destruct Hacc1 as [-> | (t & n & -> & ->)]; reflexivity. }
    rewrite Hres, Hback. cbn [map filter].
    destruct (back_msg top) as [b |]; cbn [is_set].
    + rewrite gal_error_add_back_msg_pushed. cbn [map pushed back_msg rev].
      now rewrite <- app_assoc.
    + reflexivity.
Qed.

(** Whatever the records hold, when [gal_error_reverse] returns from a
    chain of two records or more it has written nothing, and the back
    messages of the chain it returns are the back messages that were
    present, in the opposite order: a record without a back message is
    dropped. *)
Theorem gal_error_reverse_drops_unset (err res : chain)
    (stderr stderr' : stream) :
  (2 <= List.length err)%nat ->
  gal_error_reverse err stderr = (stderr', Returns res) ->
  stderr' = stderr /\
  map back_msg res = rev (filter is_set (map back_msg err)) /\
  (List.length res <= List.length err)%nat.
Proof.
  intros Hlen Hrun.
  destruct err as [| r1 [| r2 rest]]; cbn in Hlen; try lia.
  unfold gal_error_reverse in Hrun.
  apply gal_error_reverse_loop_back_msg in Hrun.
  destruct Hrun as (-> & Hback). rewrite app_nil_r in Hback.
  split; [reflexivity | split; [exact Hback |]].
  rewrite <- (length_map back_msg res), Hback, length_rev.
  rewrite <- (length_map back_msg (r1 :: r2 :: rest)).
  apply filter_length_le.
Qed.

Lemma gal_error_reverse_drops_unset_witness :
  let err := [ mk_gal_error_t 5 3 0 0 (Some "overflow"%string) None;
               mk_gal_error_t 7 1 0 1 None None;
               mk_gal_error_t 2 8 0 0 (Some "negative density"%string)
                 None ] in
  let res := [ mk_gal_error_t 2 8 0 0 (Some "negative density"%string) None;
               mk_gal_error_t 5 3 0 0 (Some "overflow"%string) None ] in
  @nil string = [] /\
  map back_msg res = rev (filter is_set (map back_msg err)) /\
  (List.length res <= List.length err)%nat.
Proof.
  apply (gal_error_reverse_drops_unset
           [ mk_gal_error_t 5 3 0 0 (Some "overflow"%string) None;
             mk_gal_error_t 7 1 0 1 None None;
             mk_gal_error_t 2 8 0 0 (Some "negative density"%string) None ]
           [ mk_gal_error_t 2 8 0 0 (Some "negative density"%string) None;
             mk_gal_error_t 5 3 0 0 (Some "overflow"%string) None ]
           [] []).
  - cbn. lia.
  - reflexivity.
Defined.


(** ** Raising an error and looking for it *)

Lemma byte_at_8_GAL_ERROR_BITSET (l c w : Z) :
  0 <= l <= 255 -> 0 <= c <= 255 -> 0 <= w <= 255 ->
  byte_at (GAL_ERROR_BITSET l c w) 8 = c.
Proof.
  intros Hl Hc Hw. rewrite GAL_ERROR_BITSET_sum by lia.
  destruct (field_of_sum l c w) as (_ & Fc & _); try lia. exact Fc.
Qed.

(** An error raised with [gal_error] on the empty chain is found by
    [gal_error_check] under an identifier of [GAL_ERROR_BITSET] exactly
    when the two error codes are the same; the library codes and the
    severities play no part. *)
Theorem gal_error_then_check (l c w l' c' w' : Z) (errstr : option string) :
  0 <= l <= 255 -> 0 <= c <= 255 -> 0 <= w <= 255 ->
  0 <= l' <= 255 -> 0 <= c' <= 255 -> 0 <= w' <= 255 ->
  (gal_error_check (gal_error [] l c w errstr) (GAL_ERROR_BITSET l' c' w') = 1
   <-> c = c') /\
  (gal_error_check (gal_error [] l c w errstr) (GAL_ERROR_BITSET l' c' w') = 0
   <-> c <> c').
Proof.
  intros Hl Hc Hw Hl' Hc' Hw'.
  rewrite gal_error_check_eq, gal_error_eq.
  cbn [existsb pushed code]. rewrite orb_false_r.
  unfold uint32. rewrite byte_at_mod_pow2 by lia.
  rewrite !byte_at_8_GAL_ERROR_BITSET by assumption.
  destruct (Z.eqb_spec c c') as [E | E]; split; split; intros H;
    try assumption; try reflexivity; try discriminate H; contradiction.
Qed.

Lemma gal_error_then_check_witness :
  (gal_error_check (gal_error [] 1 5 0 (Some "division by zero"%string))
     (GAL_ERROR_BITSET 99 5 1) = 1
   <-> 5 = 5) /\
  (gal_error_check (gal_error [] 1 5 0 (Some "division by zero"%string))
     (GAL_ERROR_BITSET 99 5 1) = 0
   <-> 5 <> 5).
Proof.
  apply (gal_error_then_check 1 5 0 99 5 1 (Some "division by zero"%string));
    lia.
Defined.

(** ** Library names and printing *)

Lemma library_code_cases (l : Z) :
  GAL_ERROR_LIB_INVALID < l < GAL_ERROR_LIB_NUMLIBS ->
  In l (map Z.of_nat (seq 1 41)).
Proof.
  unfold GAL_ERROR_LIB_INVALID, GAL_ERROR_LIB_NUMLIBS. intros H.
  replace l with (Z.of_nat (Z.to_nat l)) by lia.
  apply in_map, in_seq. lia.
Qed.

Section PrintingProperties.

Variable PACKAGE_BUGREPORT : string.

(** A library code outside the libraries of the enumeration, the two
    bounds [GAL_ERROR_LIB_INVALID] and [GAL_ERROR_LIB_NUMLIBS] included, is
    printed as the request to report a bug. *)
Theorem gal_error_print_lib_name_unknown (l : Z) :
  l <= GAL_ERROR_LIB_INVALID \/ GAL_ERROR_LIB_NUMLIBS <= l ->
  gal_error_print_lib_name PACKAGE_BUGREPORT l
    = ("NOT-DEFINED! A bug! Please contact us at "
         ++ PACKAGE_BUGREPORT)%string.
Proof.
  unfold GAL_ERROR_LIB_INVALID, GAL_ERROR_LIB_NUMLIBS. intros Hout.
  unfold gal_error_print_lib_name.
  destruct (find _ gal_error_print_lib_name_cases) as [[k name] |] eqn:E;
    [| reflexivity].
  exfalso. apply find_some in E. destruct E as [Hin Hk].
  cbn [fst] in Hk. apply Z.eqb_eq in Hk. subst k.
  cbn in Hin.
  repeat (destruct Hin as [Hin | Hin];
          [injection Hin as Hl _; vm_compute in Hl; lia |]).
  exact Hin.
Qed.

Lemma gal_error_print_lib_name_back (l : Z) :
  GAL_ERROR_LIB_INVALID < l < GAL_ERROR_LIB_NUMLIBS ->
  find (fun c => (snd c =? gal_error_print_lib_name PACKAGE_BUGREPORT l)%string)
    gal_error_print_lib_name_cases
  = Some (l, gal_error_print_lib_name PACKAGE_BUGREPORT l).
Proof.
  intros H. apply library_code_cases in H. cbn in H.
  repeat (destruct H as [<- | H]; [reflexivity |]).
  contradiction.
Qed.

(** Every library of the enumeration, from [GAL_ERROR_LIB_ARITHMETIC] to
    [GAL_ERROR_LIB_WCS], has its own [case]: its name is in the table of
    the [switch], and two different libraries never print the same name. *)
Theorem gal_error_print_lib_name_known (l l' : Z) :
  GAL_ERROR_LIB_INVALID < l < GAL_ERROR_LIB_NUMLIBS ->
  GAL_ERROR_LIB_INVALID < l' < GAL_ERROR_LIB_NUMLIBS ->
  In (l, gal_error_print_lib_name PACKAGE_BUGREPORT l)
    gal_error_print_lib_name_cases /\
  (gal_error_print_lib_name PACKAGE_BUGREPORT l
     = gal_error_print_lib_name PACKAGE_BUGREPORT l' <-> l = l').
Proof.
  intros Hl Hl'.
  pose proof (gal_error_print_lib_name_back l Hl) as Bl.
  pose proof (gal_error_print_lib_name_back l' Hl') as Bl'.
  split.
  - apply find_some in Bl. exact (proj1 Bl).
  - split; [| intros ->; reflexivity].
    intros E. rewrite E in Bl. rewrite Bl in Bl'.
    now injection Bl' as ->.
Qed.


Lemma printf_no_args_percent_free (s : string) :
  percent_free s = true -> printf_no_args s = Some s.
Proof.
  induction s as [| ch rest IH]; [reflexivity |].
  cbn [percent_free printf_no_args]. intros H.
  apply andb_true_iff in H. destruct H as [Hch Hrest].
  destruct (ch =? "%")%char; [discriminate Hch |].
  now rewrite (IH Hrest).
Qed.

Lemma percent_free_lines (err : chain) (verbose : Z) :
  Forall
    (fun r =>
       percent_free (gal_error_to_string PACKAGE_BUGREPORT r verbose) = true)
    err ->
  Forall2
    (fun r line =>
       printf_no_args (gal_error_to_string PACKAGE_BUGREPORT r verbose)
       = Some line)
    err (map (fun r => gal_error_to_string PACKAGE_BUGREPORT r verbose) err).
Proof.
  induction 1 as [| r rest Hr _ IH]; cbn [map]; constructor.
  - now apply printf_no_args_percent_free.
  - exact IH.
Qed.

Lemma gal_error_to_stderr_all_any (err : chain) (verbose : Z)
    (stderr : stream) :
  Forall
    (fun r =>
       percent_free (gal_error_to_string PACKAGE_BUGREPORT r verbose) = true)
    err ->
  gal_error_to_stderr_all PACKAGE_BUGREPORT err verbose stderr
    = (stderr
         ++ map (fun r => gal_error_to_string PACKAGE_BUGREPORT r verbose)
              err,
       Returns (if gal_error_occurred err =? 1
                then Z.of_nat (List.length err) else 0)).
Proof.
  intros Hfree. destruct err as [| head next].
  - cbn. unfold ret. now rewrite app_nil_r.
  - rewrite (gal_error_to_stderr_all_eq _ _ _ _ _ _
               (percent_free_lines _ _ Hfree)).
    cbn [gal_error_occurred].
    destruct (is_warning head =? 0); reflexivity.
Qed.

(** On a chain whose rendered lines hold no [%] (the line is handed to
    [error] as its format), [gal_error_to_stderr_all] does not terminate
    the process: after what was on standard error it writes one line per
    record, in the order of the chain, and it returns the length of the
    chain when [gal_error_occurred] is 1 and 0 when it is not.
    [gal_errorinprogram], with [gal_error_to_stderr_all] as the printer it
    calls, writes the same lines and then terminates the process with
    [EXIT_FAILURE] exactly when [gal_error_occurred] is 1. *)
Theorem gal_error_to_stderr_all_follows_occurred (err : chain)
    (verbose : Z) (stderr : stream) :
  Forall
    (fun r =>
       percent_free (gal_error_to_string PACKAGE_BUGREPORT r verbose) = true)
    err ->
  gal_error_to_stderr_all PACKAGE_BUGREPORT err verbose stderr
    = (stderr
         ++ map (fun r => gal_error_to_string PACKAGE_BUGREPORT r verbose)
              err,
       Returns (if gal_error_occurred err =? 1
                then Z.of_nat (List.length err) else 0)) /\
  gal_errorinprogram
    (fun e => gal_error_to_stderr_all PACKAGE_BUGREPORT e verbose) err stderr
    = (stderr
         ++ map (fun r => gal_error_to_string PACKAGE_BUGREPORT r verbose)
              err,
       if gal_error_occurred err =? 1
       then Exits EXIT_FAILURE else Returns tt).
Proof.
  intros Hfree.
  split; [now apply gal_error_to_stderr_all_any |].
  unfold gal_errorinprogram, bind.
  rewrite gal_error_to_stderr_all_any by exact Hfree.
  destruct (gal_error_occurred err =? 1) eqn:E; [| reflexivity].
  destruct err as [| head next]; [discriminate E | reflexivity].
Qed.

(** On a chain of records made by [gal_error_add_back_msg] whose rendered
    lines hold no [%], [gal_error_to_stderr_all] after [gal_error_reverse]
    writes the lines of the records in the opposite order, the record
    pushed first on the first line, and its count follows the severity of
    that record. *)
Theorem gal_error_to_stderr_all_reversed (err : chain) (verbose : Z)
    (stderr : stream) :
  Forall as_allocated err ->
  Forall
    (fun r =>
       percent_free (gal_error_to_string PACKAGE_BUGREPORT r verbose) = true)
    err ->
  (e <- gal_error_reverse err ;;
   gal_error_to_stderr_all PACKAGE_BUGREPORT e verbose) stderr
  = (stderr
       ++ rev (map (fun r => gal_error_to_string PACKAGE_BUGREPORT r verbose)
                 err),
     Returns (if gal_error_occurred (rev err) =? 1
              then Z.of_nat (List.length err) else 0)).
Proof.
  intros Hall Hfree. unfold bind.
  rewrite gal_error_reverse_as_allocated by exact Hall.
  rewrite gal_error_to_stderr_all_any by now apply Forall_rev.
  now rewrite map_rev, length_rev.
Qed.

End PrintingProperties.

Lemma gal_error_print_lib_name_unknown_witness :
  gal_error_print_lib_name "bug-gnuastro@gnu.org" GAL_ERROR_LIB_NUMLIBS
    = ("NOT-DEFINED! A bug! Please contact us at "
         ++ "bug-gnuastro@gnu.org")%string.
Proof.
  apply (gal_error_print_lib_name_unknown "bug-gnuastro@gnu.org"
           GAL_ERROR_LIB_NUMLIBS).
  right. unfold GAL_ERROR_LIB_NUMLIBS. lia.
Defined.

Lemma gal_error_print_lib_name_known_witness :
  In (GAL_ERROR_LIB_COSMOLOGY,
      gal_error_print_lib_name "bug-gnuastro@gnu.org" GAL_ERROR_LIB_COSMOLOGY)
    gal_error_print_lib_name_cases /\
  (gal_error_print_lib_name "bug-gnuastro@gnu.org" GAL_ERROR_LIB_COSMOLOGY
     = gal_error_print_lib_name "bug-gnuastro@gnu.org" GAL_ERROR_LIB_WCS
   <-> GAL_ERROR_LIB_COSMOLOGY = GAL_ERROR_LIB_WCS).
Proof.
  apply (gal_error_print_lib_name_known "bug-gnuastro@gnu.org"
           GAL_ERROR_LIB_COSMOLOGY GAL_ERROR_LIB_WCS);
    unfold GAL_ERROR_LIB_INVALID, GAL_ERROR_LIB_NUMLIBS,
      GAL_ERROR_LIB_COSMOLOGY, GAL_ERROR_LIB_WCS; lia.
Defined.

Lemma gal_error_to_stderr_all_follows_occurred_witness :
  let err := [pushed "low redshift" (GAL_ERROR_BITSET 8 1 1) None;
              pushed "division by zero" (GAL_ERROR_BITSET 3 5 0)
                (Some "compute_ratio"%string)] in
  gal_error_to_stderr_all "bug-gnuastro@gnu.org" err 1 []
    = ([] ++ map (fun r => gal_error_to_string "bug-gnuastro@gnu.org" r 1)
               err,
       Returns (if gal_error_occurred err =? 1
                then Z.of_nat (List.length err) else 0)) /\
  gal_errorinprogram
    (fun e => gal_error_to_stderr_all "bug-gnuastro@gnu.org" e 1) err []
    = ([] ++ map (fun r => gal_error_to_string "bug-gnuastro@gnu.org" r 1)
               err,
       if gal_error_occurred err =? 1
       then Exits EXIT_FAILURE else Returns tt).
Proof.
  apply (gal_error_to_stderr_all_follows_occurred "bug-gnuastro@gnu.org"
           [pushed "low redshift" (GAL_ERROR_BITSET 8 1 1) None;
            pushed "division by zero" (GAL_ERROR_BITSET 3 5 0)
              (Some "compute_ratio"%string)] 1 []).
  repeat (apply Forall_cons; [reflexivity |]). apply Forall_nil.
Defined.

Lemma gal_error_to_stderr_all_reversed_witness :
  let err := [pushed "division by zero" (GAL_ERROR_BITSET 3 5 0)
                (Some "compute_ratio"%string);
              pushed "low redshift" (GAL_ERROR_BITSET 8 1 1) None] in
  Forall as_allocated err /\
  (e <- gal_error_reverse err ;;
   gal_error_to_stderr_all "bug-gnuastro@gnu.org" e 1) []
  = ([] ++ rev (map (fun r =>
                       gal_error_to_string "bug-gnuastro@gnu.org" r 1) err),
     Returns (if gal_error_occurred (rev err) =? 1
              then Z.of_nat (List.length err) else 0)).
Proof.
  intros err.
  assert (Hall : Forall as_allocated err).
  { repeat (apply Forall_cons; [apply as_allocated_pushed |]).
    apply Forall_nil. }
  assert (Hfree :
    Forall
      (fun r =>
         percent_free (gal_error_to_string "bug-gnuastro@gnu.org" r 1)
         = true) err).
  { repeat (apply Forall_cons; [reflexivity |]). apply Forall_nil. }
  split; [exact Hall |].
  exact (gal_error_to_stderr_all_reversed "bug-gnuastro@gnu.org" err 1 []
           Hall Hfree).
Defined.
